(** * docker-entrypoint.py: configuration resolver and bootstrap executor

    A shallow embedding of [docker-entrypoint.py] (the entrypoint of the
    docker-postgres-multi image) and the properties of its configuration
    resolver ([load_config]), its bootstrap executor ([setup]) and its
    command dispatcher ([main]).

    Conventions of the embedding.
    - A Python value that is "a string or None" is an [option string].
      Text is a Python 2 byte string; a value read through an [X_FILE]
      indirection is taken as the same kind of text.
    - [error_exit] and uncaught exceptions are results of a small error
      monad; the local lists and sets that the closures of [load_config]
      mutate, and the module-level [ENV_CACHE], are threaded as state.
    - Everything the process does to the outside (child processes, writes
      to pg_hba.conf, prints, exec) is recorded in order in a trace. *)

From Stdlib Require Import Ascii String.
From stdpp Require Import gmap strings list pretty.

Local Open Scope string_scope.
Local Open Scope list_scope.

#[local] Set Warnings "-clear-no-such-hyp".

(** ** Python string primitives *)

Module Py.

(** The characters [str.strip()] removes: space, \t, \n, \v, \f, \r. *)
Definition is_space (c : ascii) : bool :=
  let n := nat_of_ascii c in
  (n =? 32)%nat || ((9 <=? n)%nat && (n <=? 13)%nat).

Fixpoint lstrip (s : string) : string :=
  match s with
  | EmptyString => EmptyString
  | String c s' => if is_space c then lstrip s' else s
  end.

Fixpoint rstrip (s : string) : string :=
  match s with
  | EmptyString => EmptyString
  | String c s' =>
      match rstrip s' with
      | EmptyString => if is_space c then EmptyString else String c EmptyString
      | r => String c r
      end
  end.

(** [s.strip()] *)
Definition strip (s : string) : string := rstrip (lstrip s).

(** [s.split(sep)] for a one-character separator: never an empty list,
    empty pieces are kept. *)
Fixpoint split (sep : ascii) (s : string) : list string :=
  match s with
  | EmptyString => [EmptyString]
  | String c s' =>
      if Ascii.eqb c sep then EmptyString :: split sep s'
      else match split sep s' with
           | h :: t => String c h :: t
           | [] => [String c EmptyString]
           end
  end.

(** Truth value of a string, and of a string-or-None. *)
Definition truthy (s : string) : bool :=
  match s with EmptyString => false | _ => true end.

Definition truthy_opt (v : option string) : bool :=
  match v with Some s => truthy s | None => false end.

(** ['{}'.format(v)] for a string or None. *)
Definition fmt (v : option string) : string :=
  match v with Some s => s | None => "None" end.

(** [s.startswith('!')] and [s[1:]]. *)
Definition startswith (c : ascii) (s : string) : bool :=
  match s with String c' _ => Ascii.eqb c' c | EmptyString => false end.

Definition tail (s : string) : string :=
  match s with String _ s' => s' | EmptyString => EmptyString end.

(** [s[i]]: [None] stands for IndexError. *)
Definition index (s : string) (i : nat) : option ascii := String.get i s.

(** [s in haystack] for strings. *)
Fixpoint contains (needle haystack : string) : bool :=
  String.prefix needle haystack ||
  match haystack with
  | EmptyString => false
  | String _ h => contains needle h
  end.

End Py.

(** ** Results of running a piece of the script *)

Inductive exn :=
  | TypeError
  | AttributeError
  | IndexError
  | ValueError
  | IOError
  | KeyError
  | OSError
  | CalledProcessError (cmd : list string).

(** [Ok a]: ran to its end. [Exit msg]: [error_exit(msg)], the message
    went to stderr and the process exited with status 1. [Raise e]: an
    exception nobody catches. [Replaced]: an [os.execlp] replaced the
    process image. [OutOfFuel]: an artefact of the embedding, the bound
    on the iterations of [itertools.count()] was reached. *)
Inductive outcome (A : Type) :=
  | Ok (a : A)
  | Exit (msg : string)
  | Raise (e : exn)
  | Replaced
  | OutOfFuel.
Arguments Ok {A} a.
Arguments Exit {A} msg.
Arguments Raise {A} e.
Arguments Replaced {A}.
Arguments OutOfFuel {A}.

Definition is_ok {A} (o : outcome A) : bool :=
  match o with Ok _ => true | _ => false end.

(** ** Data model *)

Record PGUser := mkPGUser
  { name : option string; password : option string; superuser : bool }.
Record PGDatabase := mkPGDatabase
  { db_name : option string; owner : option string }.
Record PGDbConf := mkPGDbConf
  { conf_name : option string; value : option string }.
Record PGConfig := mkPGConfig
  { init_args : list string;
    db_config : list PGDbConf;
    postgres_password : option string;
    users : list PGUser;
    databases : list PGDatabase }.

Global Instance PGUser_eq_dec : EqDecision PGUser.
Proof. solve_decision. Defined.
Global Instance PGDatabase_eq_dec : EqDecision PGDatabase.
Proof. solve_decision. Defined.

(** The process environment: [os.environ] and the files that [X_FILE]
    variables may point to (a path without an entry cannot be opened). *)
Record environment := mkEnvironment
  { environ : gmap string string;
    files : gmap string string }.

(** ** The resolver's state

    [ENV_CACHE] is the module-level cache of [file_env]; the other fields
    are the locals of [load_config] that its inner functions mutate
    ([postgres_password_cell] is the one-element list). *)
Record rstate := mkRState
  { ENV_CACHE : gmap string (option string);
    seen_users : gset (option string);
    seen_databases : gset (option string);
    postgres_password_cell : option string;
    users_list : list PGUser;
    databases_list : list PGDatabase;
    db_config_list : list PGDbConf }.

Definition R (A : Type) : Type := rstate → outcome (A * rstate).

Definition ret {A} (a : A) : R A := λ st, Ok (a, st).

Definition bind {A B} (m : R A) (k : A → R B) : R B := λ st,
  match m st with
  | Ok (a, st') => k a st'
  | Exit msg => Exit msg
  | Raise e => Raise e
  | Replaced => Replaced
  | OutOfFuel => OutOfFuel
  end.

Definition error_exit {A} (msg : string) : R A := λ _, Exit msg.
Definition raise {A} (e : exn) : R A := λ _, Raise e.
Definition out_of_fuel {A} : R A := λ _, OutOfFuel.
Definition get : R rstate := λ st, Ok (st, st).
Definition modify (f : rstate → rstate) : R unit := λ st, Ok (tt, f st).

Global Instance R_ret : MRet R := @ret.
Global Instance R_bind : MBind R := λ A B k m, bind m k.

(** [for x in l: body(x)] *)
Fixpoint for_each {A} (l : list A) (body : A → R unit) : R unit :=
  match l with
  | [] => ret tt
  | x :: l' => body x ;; for_each l' body
  end.

(** ** Utility functions *)

(** [rpad(lst, n, pad)] with [pad = None]. *)
Definition rpad (lst : list (option string)) (n : nat) : list (option string) :=
  if decide (n ≤ length lst)%nat then lst
  else lst ++ replicate (n - length lst) None.

(** [func( *args )] for a function of two positional parameters. *)
Definition apply2 (func : option string → option string → R unit)
    (args : list (option string)) : R unit :=
  match args with
  | [a; b] => func a b
  | _ => raise TypeError
  end.

(** The generator [(x.strip() for x in s.split(sep) if x)]. *)
Definition stripped_pieces (sep : ascii) (s : string) : list string :=
  Py.strip <$> filter (λ x, Py.truthy x = true) (Py.split sep s).

Section Resolver.

Variable env : environment.

(** The body of [inner()] in [file_env]. *)
Definition inner (var : string) (default : option string)
    : outcome (option string) :=
  let file_var := var +:+ "_FILE" in
  if decide (is_Some (environ env !! var) ∧ is_Some (environ env !! file_var))
  then Exit (var +:+ " and " +:+ file_var +:+ " were set, only one allowed")
  else match environ env !! var with
       | Some v => Ok (Some (Py.strip v))
       | None =>
           match environ env !! file_var with
           | Some path =>
               match files env !! path with
               | Some content => Ok (Some (Py.strip content))
               | None => Raise IOError
               end
           | None => Ok default
           end
       end.

Definition file_env (var : string) (default : option string)
    : R (option string) := λ st,
  match ENV_CACHE st !! var with
  | Some v => Ok (v, st)
  | None =>
      match inner var default with
      | Ok v =>
          Ok (v, mkRState (<[var := v]> (ENV_CACHE st)) (seen_users st)
                   (seen_databases st) (postgres_password_cell st)
                   (users_list st) (databases_list st) (db_config_list st))
      | Exit msg => Exit msg
      | Raise e => Raise e
      | Replaced => Replaced
      | OutOfFuel => OutOfFuel
      end
  end.

(** [double_split_apply(env, func, pad_len)] *)
Definition double_split_apply (var : string)
    (func : option string → option string → R unit) (pad_len : nat) : R unit :=
  v ← file_env var (Some "");
  match v with
  | None => raise AttributeError
  | Some s =>
      for_each (stripped_pieces "|" s) (λ spec,
        apply2 func (rpad (Some ∘ Py.strip <$> Py.split ":" spec) pad_len))
  end.

(** *** The inner functions of [load_config] *)

Definition add_user (name : option string) (password : option string)
    (superuser : bool) : R unit :=
  st ← get;
  (if decide (name ∈ seen_users st)
   then error_exit ("user " +:+ Py.fmt name +:+ " registered twice")
   else ret tt);;
  (if decide (name = Some "postgres")
   then
     (if negb superuser
      then error_exit "cannot change postgres to a non-superuser"
      else ret tt);;
     modify (λ st, mkRState (ENV_CACHE st) (seen_users st) (seen_databases st)
                     password (users_list st) (databases_list st)
                     (db_config_list st))
   else
     modify (λ st, mkRState (ENV_CACHE st) (seen_users st) (seen_databases st)
                     (postgres_password_cell st)
                     (users_list st ++ [mkPGUser name password superuser])
                     (databases_list st) (db_config_list st)));;
  modify (λ st, mkRState (ENV_CACHE st) ({[name]} ∪ seen_users st)
                  (seen_databases st) (postgres_password_cell st)
                  (users_list st) (databases_list st) (db_config_list st)).

Definition add_database (name : option string) (owner : option string)
    : R unit :=
  if decide (name = Some "postgres")
  then
    (if decide (owner ≠ None ∧ owner ≠ Some "postgres")
     then error_exit ("cannot change owner of database postgres to "
                      +:+ Py.fmt owner)
     else ret tt)
  else
    st ← get;
    (if decide (name ∈ seen_databases st)
     then error_exit ("database " +:+ Py.fmt name +:+ " registered twice")
     else ret tt);;
    modify (λ st, mkRState (ENV_CACHE st) (seen_users st)
                    ({[name]} ∪ seen_databases st) (postgres_password_cell st)
                    (users_list st)
                    (databases_list st ++ [mkPGDatabase name owner])
                    (db_config_list st)).

Definition add_user_from_multi (name : option string)
    (password : option string) : R unit :=
  match name with
  | None => raise AttributeError
  | Some n =>
      if Py.startswith "!" n
      then add_user (Some (Py.strip (Py.tail n))) password true
      else add_user (Some n) password false
  end.

(** The lambda given for [POSTGRES_CONFIGS]. *)
Definition add_db_conf (name value : option string) : R unit :=
  modify (λ st, mkRState (ENV_CACHE st) (seen_users st) (seen_databases st)
                  (postgres_password_cell st) (users_list st)
                  (databases_list st)
                  (db_config_list st ++ [mkPGDbConf name value])).

(** ['POSTGRES_USER_{}'.format(i)] and its siblings. *)
Definition indexed_var (base : string) (i : nat) : string :=
  base +:+ "_" +:+ pretty i.

(** The loop [for i in itertools.count()], from index [i] on; [fuel]
    bounds the number of iterations. *)
Fixpoint indexed_scheme (fuel : nat) (i : nat) : R unit :=
  match fuel with
  | O => out_of_fuel
  | S fuel' =>
      let pg_user_x := indexed_var "POSTGRES_USER" i in
      let pg_pw_x := indexed_var "POSTGRES_PASSWORD" i in
      let pg_super_x := indexed_var "POSTGRES_SUPERUSER" i in
      let pg_databases_x := indexed_var "POSTGRES_DATABASES" i in
      probe ← file_env pg_user_x None;
      match probe with
      | None => ret tt
      | Some _ =>
          user ← file_env pg_user_x None;
          pw ← file_env pg_pw_x None;
          super ← file_env pg_super_x None;
          add_user user pw (bool_decide (super = Some "1"));;
          dbs ← file_env pg_databases_x (Some "");
          match dbs with
          | None => raise AttributeError
          | Some s =>
              for_each (stripped_pieces "|" s) (λ db, add_database (Some db) user)
          end;;
          indexed_scheme fuel' (S i)
      end
  end.

(** [shlex.split] belongs to the Python library: it is a parameter, with
    [None] for the ValueError it raises on unbalanced quotes. Its argument
    is a string whenever the cache did not hold None for the key, which
    no call of this script stores. *)
Variable shlex_split : string → option (list string).

Definition load_config_body (fuel : nat) : R PGConfig :=
  raw_args ← file_env "POSTGRES_INITDB_ARGS" (Some "");
  init_args ← match raw_args ≫= shlex_split with
              | Some l => ret l
              | None => raise ValueError
              end;
  double_split_apply "POSTGRES_CONFIGS" add_db_conf 0;;
  u ← file_env "POSTGRES_USER" None;
  match u with
  | Some _ =>
      u1 ← file_env "POSTGRES_USER" None;
      pw ← file_env "POSTGRES_PASSWORD" None;
      add_user u1 pw true
  | None => ret tt
  end;;
  d ← file_env "POSTGRES_DATABASE" None;
  match d with
  | Some _ =>
      n ← file_env "POSTGRES_USER" None;
      o ← file_env "POSTGRES_USER" None;
      add_database n o
  | None => ret tt
  end;;
  double_split_apply "POSTGRES_USERS" add_user_from_multi 2;;
  double_split_apply "POSTGRES_DATABASES" add_database 2;;
  indexed_scheme fuel 0;;
  st ← get;
  ret (mkPGConfig init_args (db_config_list st) (postgres_password_cell st)
         (users_list st) (databases_list st)).

(** The locals of [load_config] as it starts, over the current cache. *)
Definition fresh (cache : gmap string (option string)) : rstate :=
  mkRState cache ∅ ∅ None [] [] [].

(** [load_config()]: the configuration and the cache it leaves. *)
Definition load_config (fuel : nat) (cache : gmap string (option string))
    : outcome (PGConfig * gmap string (option string)) :=
  match load_config_body fuel (fresh cache) with
  | Ok (cfg, st) => Ok (cfg, ENV_CACHE st)
  | Exit msg => Exit msg
  | Raise e => Raise e
  | Replaced => Replaced
  | OutOfFuel => OutOfFuel
  end.

End Resolver.

(** The environment keys of the indexed scheme: for each index the four
    variables and their [_FILE] variants. *)
Definition indexed_bases : list string :=
  ["POSTGRES_USER"; "POSTGRES_PASSWORD"; "POSTGRES_SUPERUSER";
   "POSTGRES_DATABASES"].

Definition suffixes : list string := [""; "_FILE"].

(** The variables of the other two schemes and of the settings. *)
Definition fixed_vars : list string :=
  ["POSTGRES_INITDB_ARGS"; "POSTGRES_CONFIGS"; "POSTGRES_USER";
   "POSTGRES_PASSWORD"; "POSTGRES_DATABASE"; "POSTGRES_USERS";
   "POSTGRES_DATABASES"].

Definition keys_of_index (j : nat) : list string :=
  base ← indexed_bases; suf ← suffixes; [indexed_var base j +:+ suf].

(** [later_key i k]: [k] is a key of the indexed scheme at an index
    that is [i] or more. *)
Definition later_key (i : nat) (k : string) : Prop :=
  ∃ j : nat, (i ≤ j)%nat ∧ k ∈ keys_of_index j.

(** ** The process and its trace *)

(** What the process does to the outside, in the order it does it. *)
Inductive event :=
  | CheckOutput (argv : list string)
  | CheckCall (argv : list string)
  | Call (argv : list string)
  | CheckCallPipe (argv : list string) (input : string)
  | Write (path : string) (text : string)
  | Print (text : string)
  | PrintErr (text : string)
  | Execlp (file : string) (argv : list string).

Global Instance event_eq_dec : EqDecision event.
Proof. solve_decision. Defined.

(** The surroundings of one run: the environment block and the files it
    may point to, the output of [id -u], which paths are regular files
    when [setup] looks, and whether a child process (or an exec) succeeds,
    given everything the process did before it. *)
Record world := mkWorld
  { initial_environ : gmap string string;
    file_contents : gmap string string;
    id_u : nat;
    isfile : string → bool;
    succeeds : list event → event → bool }.

(** The mutable module-level state, and the trace so far. *)
Record pstate := mkPState
  { sys_argv : list string;
    env_cache : gmap string (option string);
    trace : list event }.

Definition M (A : Type) : Type := pstate → outcome A * pstate.

Definition M_ret_def {A} (a : A) : M A := λ st, (Ok a, st).

Definition M_bind_def {A B} (m : M A) (k : A → M B) : M B := λ st,
  match m st with
  | (Ok a, st') => k a st'
  | (Exit msg, st') => (Exit msg, st')
  | (Raise e, st') => (Raise e, st')
  | (Replaced, st') => (Replaced, st')
  | (OutOfFuel, st') => (OutOfFuel, st')
  end.

Global Instance M_ret : MRet M := @M_ret_def.
Global Instance M_bind : MBind M := λ A B k m, M_bind_def m k.

Definition emit (e : event) : M unit := λ st,
  (Ok tt, mkPState (sys_argv st) (env_cache st) (trace st ++ [e])).

Definition stop {A} (o : outcome A) : M A := λ st, (o, st).

(** [for x in l: body(x)] *)
Fixpoint for_each_M {A} (l : list A) (body : A → M unit) : M unit :=
  match l with
  | [] => mret tt
  | x :: l' => body x ;; for_each_M l' body
  end.

(** A loop that carries one local variable. *)
Fixpoint for_fold_M {A B} (l : list A) (body : B → A → M B) (b : B) : M B :=
  match l with
  | [] => mret b
  | x :: l' => b' ← body b x; for_fold_M l' body b'
  end.

Definition dq : string := String (ascii_of_nat 34) EmptyString.
Definition nl : string := String (ascii_of_nat 10) EmptyString.

(** [os.path.join(a, b)] for a relative [b]. *)
Definition path_join (a b : string) : string :=
  match String.rev a with
  | EmptyString => b
  | String c _ => if Ascii.eqb c "/" then a +:+ b else a +:+ "/" +:+ b
  end.

Definition PGUID : string := "postgres".
Definition PGRUNDIR : string := "/var/run/postgresql".

Definition WARNING : string :=
  nl +:+
  "****************************************************" +:+ nl +:+
  "WARNING: No password has been set for the database." +:+ nl +:+
  "         This will allow anyone with access to the" +:+ nl +:+
  "         Postgres port to access your database. In" +:+ nl +:+
  "         Docker's default configuration, this is" +:+ nl +:+
  "         effectively any other container on the same" +:+ nl +:+
  "         system." +:+ nl +:+
  nl +:+
  "         Use " +:+ dq +:+ "-e POSTGRES_PASSWORD=password" +:+ dq +:+
    " to set" +:+ nl +:+
  "         it in " +:+ dq +:+ "docker run" +:+ dq +:+ "." +:+ nl +:+
  "****************************************************" +:+ nl.

Section Script.

Variable w : world.

(** The module-level constants, and [os.environ] once the module has
    set [PGUSER]. *)
Variable UID : nat.
Variable PGDATA : string.
Variable os_environ : gmap string string.
Variable shlex_split : string → option (list string).

(** [subprocess.check_call]: a child that fails raises. *)
Definition check_call (argv : list string) : M unit := λ st,
  let st' := mkPState (sys_argv st) (env_cache st)
               (trace st ++ [CheckCall argv]) in
  if succeeds w (trace st) (CheckCall argv) then (Ok tt, st')
  else (Raise (CalledProcessError argv), st').

(** [subprocess.call]: the exit status is dropped. *)
Definition call (argv : list string) : M unit := emit (Call argv).

(** [check_call_pipe(argv, input=...)] *)
Definition check_call_pipe (argv : list string) (input : string) : M unit :=
  λ st,
  let st' := mkPState (sys_argv st) (env_cache st)
               (trace st ++ [CheckCallPipe argv input]) in
  if succeeds w (trace st) (CheckCallPipe argv input) then (Ok tt, st')
  else (Raise (CalledProcessError argv), st').

(** [os.execlp(file, *argv)] does not return when it succeeds. *)
Definition execlp {A} (file : string) (argv : list string) : M A := λ st,
  let st' := mkPState (sys_argv st) (env_cache st)
               (trace st ++ [Execlp file argv]) in
  if succeeds w (trace st) (Execlp file argv) then (Replaced, st')
  else (Raise OSError, st').

Definition _psql (sql : string) (args : list string) : M unit :=
  check_call_pipe (["psql"; "-v"; "ON_ERROR_STOP=1"] ++ args) sql.

(** [psql(sql, ...)] and [psql_db(db, sql, ...)], on the formatted text. *)
Definition psql (sql : string) : M unit :=
  _psql sql ["--username"; "postgres"].

Definition psql_db (db : option string) (sql : string) : M unit :=
  _psql sql ["--username"; "postgres"; "--dbname"; Py.fmt db].

Definition print_trust_warning : M unit := emit (PrintErr WARNING).

Definition init_with_root : M unit :=
  check_call ["mkdir"; "-p"; PGDATA];;
  check_call ["chown"; "-R"; PGUID; PGDATA];;
  check_call ["chmod"; "700"; PGDATA];;
  check_call ["mkdir"; "-p"; PGRUNDIR];;
  check_call ["chown"; "-R"; PGUID; PGRUNDIR];;
  check_call ["chmod"; "g+s"; PGRUNDIR];;
  st ← (λ st, (Ok st, st)) : M pstate;
  execlp "gosu" (["gosu"; PGUID] ++ sys_argv st).

(** [load_config()] run by the process, on its cache. *)
Definition call_load_config (fuel : nat) : M PGConfig := λ st,
  match load_config (mkEnvironment os_environ (file_contents w))
          shlex_split fuel (env_cache st) with
  | Ok (cfg, cache') => (Ok cfg, mkPState (sys_argv st) cache' (trace st))
  | Exit msg => (Exit msg, st)
  | Raise e => (Raise e, st)
  | Replaced => (Replaced, st)
  | OutOfFuel => (OutOfFuel, st)
  end.

(** The texts [setup] builds. *)
Definition trust_line (name : option string) : string :=
  "host all " +:+ Py.fmt name +:+ " all trust" +:+ nl.

Definition md5_line : string := "host all all all md5" +:+ nl.

Definition alter_postgres_sql (pw : option string) : string :=
  "ALTER USER " +:+ dq +:+ "postgres" +:+ dq +:+
  " WITH SUPERUSER PASSWORD '" +:+ Py.fmt pw +:+ "'".

Definition pass_clause (user_config : PGUser) : string :=
  if Py.truthy_opt (password user_config)
  then "PASSWORD '" +:+ Py.fmt (password user_config) +:+ "'"
  else "".

Definition super_clause (user_config : PGUser) : string :=
  if superuser user_config then "SUPERUSER" else "".

Definition create_user_sql (user_config : PGUser) : string :=
  "CREATE USER " +:+ dq +:+ Py.fmt (name user_config) +:+ dq +:+ " WITH "
  +:+ pass_clause user_config +:+ " " +:+ super_clause user_config.

Definition owner_clause (db_config : PGDatabase) : string :=
  if Py.truthy_opt (owner db_config)
  then "WITH OWNER " +:+ dq +:+ Py.fmt (owner db_config) +:+ dq
  else "".

Definition create_database_sql (db_config : PGDatabase) : string :=
  "CREATE DATABASE " +:+ dq +:+ Py.fmt (db_name db_config) +:+ dq +:+ " "
  +:+ owner_clause db_config.

Definition revoke_sql : string := "REVOKE ALL ON schema public FROM public".

Definition grant_sql (db_config : PGDatabase) : string :=
  "GRANT ALL ON schema public TO " +:+ dq +:+ Py.fmt (owner db_config) +:+ dq.

Definition alter_system_sql (setting : PGDbConf) : string :=
  "ALTER SYSTEM SET " +:+ Py.fmt (conf_name setting) +:+ " = " +:+ dq
  +:+ Py.fmt (value setting) +:+ dq.

Definition pg_hba : string := path_join PGDATA "pg_hba.conf".

Definition add_trust (name : option string) : M unit :=
  emit (Write pg_hba (trust_line name)).

Definition setup (fuel : nat) : M unit :=
  check_call ["mkdir"; "-p"; PGDATA];;
  call ["chown"; "-R"; PGUID; PGDATA];;
  call ["chmod"; "700"; PGDATA];;
  if isfile w (path_join PGDATA "PG_VERSION")
  then emit (Print "database already created, skipping setup")
  else
    config ← call_load_config fuel;
    check_call (["initdb"; "--username=postgres"] ++ init_args config);;
    any_trust ←
      (if decide (postgres_password config = Some "")
       then add_trust (Some "postgres");; mret true
       else mret false);
    any_trust ←
      for_fold_M (users config) (λ any_trust user_config,
        if decide (password user_config = Some "")
        then add_trust (name user_config);; mret true
        else mret any_trust) any_trust;
    emit (Write pg_hba md5_line);;
    (if any_trust : bool then print_trust_warning else mret tt);;
    check_call ["pg_ctl"; "-D"; PGDATA; "-o";
                "-c listen_addresses='localhost'"; "-w"; "start"];;
    (if Py.truthy_opt (postgres_password config)
     then psql (alter_postgres_sql (postgres_password config))
     else mret tt);;
    for_each_M (users config) (λ user_config,
      psql (create_user_sql user_config));;
    psql_db (Some "postgres") revoke_sql;;
    for_each_M (databases config) (λ db_config,
      psql (create_database_sql db_config);;
      psql_db (db_name db_config) revoke_sql;;
      if Py.truthy_opt (owner db_config)
      then psql_db (db_name db_config) (grant_sql db_config)
      else mret tt);;
    for_each_M (db_config config) (λ setting,
      psql (alter_system_sql setting));;
    check_call ["pg_ctl"; "-D"; PGDATA; "-m"; "fast"; "-w"; "stop"];;
    emit (Print (nl +:+ "PostgreSQL init process complete; ready for start up."
                 +:+ nl)).

Definition start : M unit := λ st,
  match sys_argv st with
  | _ :: file :: rest => execlp file (file :: rest) st
  | _ => (Raise IndexError, st)
  end.

Definition main (fuel : nat) : M unit :=
  st ← (λ st, (Ok st, st)) : M pstate;
  (if decide (length (sys_argv st) < 2)%nat
   then stop (Exit "No command given. At least 'postgres' must be specified to start the database")
   else mret tt);;
  c ← match sys_argv st !! 1%nat ≫= (λ a, Py.index a 1) with
      | Some c => mret c
      | None => stop (Raise IndexError)
      end;
  (if Ascii.eqb c "-"
   then λ st, (Ok tt, mkPState
                        (take 1 (sys_argv st) ++ ["postgres"] ++ drop 1 (sys_argv st))
                        (env_cache st) (trace st))
   else mret tt);;
  st ← (λ st, (Ok st, st)) : M pstate;
  cmd ← match sys_argv st !! 1%nat with
        | Some cmd => mret cmd
        | None => stop (Raise IndexError)
        end;
  (if decide (cmd = "postgres" ∧ UID = 0%nat) then init_with_root else mret tt);;
  (if decide (cmd = "postgres") then setup fuel else mret tt);;
  start.

End Script.

(** The script from its first line: the module-level statements, then
    [main()]. *)
Definition script (w : world) (shlex_split : string → option (list string))
    (argv : list string) (fuel : nat) : outcome unit * pstate :=
  let st0 := mkPState argv ∅ [CheckOutput ["id"; "-u"]] in
  match initial_environ w !! "PGDATA" with
  | None => (Raise KeyError, st0)
  | Some PGDATA =>
      let os_environ :=
        if decide (is_Some (initial_environ w !! "PGUSER"))
        then initial_environ w
        else <["PGUSER" := "postgres"]> (initial_environ w) in
      main w (id_u w) PGDATA os_environ shlex_split fuel st0
  end.

(** A stand-in for [shlex.split] on arguments without quotes or escapes:
    split on blanks. *)
Definition shlex_words (s : string) : option (list string) :=
  Some (String.words s).

Definition always (_ : list event) (_ : event) : bool := true.

Definition world_of (l : list (string * string)) (marker : bool) (uid : nat)
    : world :=
  mkWorld (list_to_map (("PGDATA", "/data") :: l)) ∅ uid
    (λ p, marker && bool_decide (p = "/data/PG_VERSION")) always.

(** [os.environ] of that world once the module has set [PGUSER]. *)
Definition environ_of (l : list (string * string)) : gmap string string :=
  <["PGUSER" := "postgres"]> (list_to_map (("PGDATA", "/data") :: l)).

Definition env_of (l : list (string * string)) : environment :=
  mkEnvironment (list_to_map l) ∅.

Definition resolve (l : list (string * string)) : outcome PGConfig :=
  match load_config (env_of l) shlex_words 10 ∅ with
  | Ok (cfg, _) => Ok cfg
  | Exit msg => Exit msg
  | Raise e => Raise e
  | Replaced => Replaced
  | OutOfFuel => OutOfFuel
  end.

Definition run (l : list (string * string)) (marker : bool) (uid : nat)
    (argv : list string) : outcome unit * list event :=
  let r := script (world_of l marker uid) shlex_words argv 10 in
  (r.1, trace r.2).


(** * Definitions used in the statements *)

(** [extend st evs]: the state after the events [evs], nothing else
    changed. *)
Definition extend (st : pstate) (evs : list event) : pstate :=
  mkPState (sys_argv st) (env_cache st) (trace st ++ evs).

(** The accounts that get a trust rule, in the order of the rules. *)
Definition trusted (cfg : PGConfig) : list (option string) :=
  (if decide (postgres_password cfg = Some "") then [Some "postgres"] else [])
  ++ (name <$> filter (λ u, password u = Some "") (users cfg)).

(** The events of [psql(sql)] and [psql_db(db, sql)]. *)
Definition psql_event (sql : string) : event :=
  CheckCallPipe ["psql"; "-v"; "ON_ERROR_STOP=1"; "--username"; "postgres"] sql.

Definition psql_db_event (db : option string) (sql : string) : event :=
  CheckCallPipe ["psql"; "-v"; "ON_ERROR_STOP=1"; "--username"; "postgres";
                 "--dbname"; Py.fmt db] sql.

(** What the loop over [config.databases] does for one database. *)
Definition database_events (db : PGDatabase) : list event :=
  [psql_event (create_database_sql db); psql_db_event (db_name db) revoke_sql]
  ++ (if Py.truthy_opt (owner db)
      then [psql_db_event (db_name db) (grant_sql db)] else []).

Definition pg_ctl_start (PGDATA : string) : event :=
  CheckCall ["pg_ctl"; "-D"; PGDATA; "-o"; "-c listen_addresses='localhost'";
             "-w"; "start"].

(** Everything a first run that reaches its end does, in order. *)
Definition first_run_events (PGDATA : string) (cfg : PGConfig) : list event :=
  [CheckCall ["mkdir"; "-p"; PGDATA];
   Call ["chown"; "-R"; PGUID; PGDATA];
   Call ["chmod"; "700"; PGDATA];
   CheckCall (["initdb"; "--username=postgres"] ++ init_args cfg)]
  ++ (Write (pg_hba PGDATA) ∘ trust_line <$> trusted cfg)
  ++ [Write (pg_hba PGDATA) md5_line]
  ++ (if bool_decide (trusted cfg ≠ []) then [PrintErr WARNING] else [])
  ++ [pg_ctl_start PGDATA]
  ++ (if Py.truthy_opt (postgres_password cfg)
      then [psql_event (alter_postgres_sql (postgres_password cfg))] else [])
  ++ (psql_event ∘ create_user_sql <$> users cfg)
  ++ [psql_db_event (Some "postgres") revoke_sql]
  ++ (databases cfg ≫= database_events)
  ++ (psql_event ∘ alter_system_sql <$> db_config cfg)
  ++ [CheckCall ["pg_ctl"; "-D"; PGDATA; "-m"; "fast"; "-w"; "stop"];
      Print (nl +:+ "PostgreSQL init process complete; ready for start up."
             +:+ nl)].

Definition database_sql (db : PGDatabase) : list string :=
  [create_database_sql db; revoke_sql]
  ++ if Py.truthy_opt (owner db) then [grant_sql db] else [].

(** The texts written to [path], the texts printed on stderr and the SQL
    texts piped to [psql], each in order. *)
Definition writes_to (path : string) (tr : list event) : list string :=
  omap (λ e, match e with
             | Write p text => if decide (p = path) then Some text else None
             | _ => None
             end) tr.

Definition stderr_of (tr : list event) : list string :=
  omap (λ e, match e with PrintErr text => Some text | _ => None end) tr.

Definition sql_of (tr : list event) : list string :=
  omap (λ e, match e with
             | CheckCallPipe ("psql" :: _) sql => Some sql
             | _ => None
             end) tr.

(** The calls that provision the database: storage initialization, server
    start and stop, SQL execution, and the rewrite of pg_hba.conf. *)
Definition provisioning (e : event) : bool :=
  match e with
  | CheckCall (cmd :: _) | Call (cmd :: _) =>
      bool_decide (cmd = "initdb" ∨ cmd = "pg_ctl" ∨ cmd = "psql")
  | CheckCallPipe _ _ => true
  | Write _ _ => true
  | _ => false
  end.

(** The events that start another program. *)
Definition external_call (e : event) : bool :=
  match e with
  | CheckOutput _ | CheckCall _ | Call _ | CheckCallPipe _ _ | Execlp _ _ => true
  | _ => false
  end.

Definition is_alter_postgres (sql : string) : bool :=
  String.prefix ("ALTER USER " +:+ dq +:+ "postgres" +:+ dq) sql.

Definition is_create_user (sql : string) : bool :=
  String.prefix "CREATE USER " sql.

(** [preserves I m]: when [m] returns, it re-establishes [I]. *)
Definition preserves {A} (I : rstate → Prop) (m : R A) : Prop :=
  ∀ st a st', I st → m st = Ok (a, st') → I st'.

(** The pairs (names seen, users listed) that registrations can build:
    a name enters [seen_users] once; the name postgres enters it
    without a list entry, every other name with one. *)
Inductive registered : gset (option string) → list PGUser → Prop :=
  | registered_nil : registered ∅ []
  | registered_user seen l n pw su :
      registered seen l → n ∉ seen → n ≠ Some "postgres" →
      registered ({[n]} ∪ seen) (l ++ [mkPGUser n pw su])
  | registered_postgres seen l :
      registered seen l → Some "postgres" ∉ seen →
      registered ({[Some "postgres"]} ∪ seen) l.

(** The invariant of the resolver's state about users. *)
Definition users_inv (st : rstate) : Prop :=
  registered (seen_users st) (users_list st).

(** Decimal digits, and strings of them. *)
Definition is_digit (c : ascii) : bool :=
  let n := nat_of_ascii c in (48 <=? n)%nat && (n <=? 57)%nat.

Fixpoint all_digits (s : string) : bool :=
  match s with
  | EmptyString => true
  | String c s' => is_digit c && all_digits s'
  end.

(** A tail that does not start with a digit. *)
Definition no_digit_head (s : string) : Prop :=
  match s with String c _ => is_digit c = false | EmptyString => True end.

(** [POSTGRES_USER_i] is not cached with a value. *)
Definition gap_inv (i : nat) (st : rstate) : Prop :=
  ∀ v, ENV_CACHE st !! indexed_var "POSTGRES_USER" i = Some v → v = None.

(** The two computations return the same from a same state, not for
    lack of fuel, and keep [gap_inv]. *)
Definition in_step (i : nat) {A} (m1 m2 : R A) : Prop :=
  ∀ st, gap_inv i st →
    m1 st = m2 st ∧ m1 st ≠ OutOfFuel ∧
    ∀ a st', m1 st = Ok (a, st') → gap_inv i st'.

(** The state in which [setup] starts when the script is run as
    [docker-entrypoint.py postgres]. *)
Definition st_postgres : pstate :=
  mkPState ["docker-entrypoint.py"; "postgres"] ∅ [CheckOutput ["id"; "-u"]].

Definition setup_of (l : list (string * string)) (marker : bool)
    : outcome unit * pstate :=
  setup (world_of l marker 70) "/data" (environ_of l) shlex_words 10
    st_postgres.

(** The cache that [load_config] leaves on an environment block. *)
Definition cache_of (l : list (string * string)) : gmap string (option string) :=
  match load_config (env_of l) shlex_words 10 ∅ with
  | Ok (_, cache) => cache
  | _ => ∅
  end.

(** The example of the indexed scheme, without and with dave at index 2. *)
Definition gap_env2 : environment :=
  env_of [("POSTGRES_USER_0", "carol"); ("POSTGRES_DATABASES_0", "x|y")].

Definition gap_env1 : environment :=
  mkEnvironment (<["POSTGRES_USER_2" := "dave"]> (environ gap_env2)) ∅.

(** A resolver state in which alice is registered. *)
Definition st_alice : rstate :=
  mkRState ∅ {[Some "alice"]} ∅ None [mkPGUser (Some "alice") None true] [] [].

(** An environment block that uses the single-user and the multi scheme. *)
Definition full_example : list (string * string) :=
  [("POSTGRES_USER", "postgres"); ("POSTGRES_PASSWORD", "pgpw");
   ("POSTGRES_USERS", "alice:secret|!bob:");
   ("POSTGRES_DATABASES", "d1:alice|d2")].

(** Whether a character occurs in a string, and how often. *)
Fixpoint has_char (c : ascii) (s : string) : bool :=
  match s with
  | EmptyString => false
  | String c' s' => Ascii.eqb c' c || has_char c s'
  end.

Fixpoint count_char (c : ascii) (s : string) : nat :=
  match s with
  | EmptyString => O
  | String c' s' => (if Ascii.eqb c' c then 1 else 0) + count_char c s'
  end.


(** The pairs (names seen, databases listed) that registrations can
    build: every listed database entered [seen_databases] when it was
    listed, and is not named postgres. *)
Inductive registered_dbs : gset (option string) → list PGDatabase → Prop :=
  | registered_dbs_nil : registered_dbs ∅ []
  | registered_dbs_add seen l n o :
      registered_dbs seen l → n ∉ seen → n ≠ Some "postgres" →
      registered_dbs ({[n]} ∪ seen) (l ++ [mkPGDatabase n o]).

Definition dbs_inv (st : rstate) : Prop :=
  registered_dbs (seen_databases st) (databases_list st).

(** The events whose failure raises: [check_call] and
    [check_call_pipe]; and the command line of an event. *)
Definition fallible (e : event) : bool :=
  match e with
  | CheckCall _ | CheckCallPipe _ _ => true
  | _ => false
  end.

Definition argv_of (e : event) : list string :=
  match e with
  | CheckOutput argv | CheckCall argv | Call argv | CheckCallPipe argv _
  | Execlp _ argv => argv
  | _ => []
  end.

(** Doing the events of [full] in order after the trace [tr], up to and
    with the first fallible one that fails: the command line that
    failed, if one did, and the events done. *)
Fixpoint run_events (w : world) (tr : list event) (full : list event)
    : option (list string) * list event :=
  match full with
  | [] => (None, [])
  | e :: rest =>
      if fallible e && negb (succeeds w tr e)
      then (Some (argv_of e), [e])
      else let r := run_events w (tr ++ [e]) rest in (r.1, e :: r.2)
  end.

Definition outcome_of {A} (a : A) (failure : option (list string))
    : outcome A :=
  match failure with
  | None => Ok a
  | Some argv => Raise (CalledProcessError argv)
  end.

(** [performs w m full a]: from every state, [m] does the events of
    [full] as [run_events] does them and, if none fails, returns [a]. *)
Definition performs (w : world) {A} (m : M A) (full : list event) (a : A)
    : Prop :=
  ∀ st, m st = (outcome_of a (run_events w (trace st) full).1,
                extend st (run_events w (trace st) full).2).

(** What [init_with_root] runs before it hands over to gosu. *)
Definition root_events (PGDATA : string) : list event :=
  [CheckCall ["mkdir"; "-p"; PGDATA];
   CheckCall ["chown"; "-R"; PGUID; PGDATA];
   CheckCall ["chmod"; "700"; PGDATA];
   CheckCall ["mkdir"; "-p"; PGRUNDIR];
   CheckCall ["chown"; "-R"; PGUID; PGRUNDIR];
   CheckCall ["chmod"; "g+s"; PGRUNDIR]].

Definition pg_ctl_stop (PGDATA : string) : event :=
  CheckCall ["pg_ctl"; "-D"; PGDATA; "-m"; "fast"; "-w"; "stop"].

(** A world in which every psql call fails and every other command
    succeeds. *)
Definition sql_fails (_ : list event) (e : event) : bool :=
  match e with
  | CheckCallPipe _ _ => false
  | _ => true
  end.

Definition world_sql_fails (l : list (string * string)) : world :=
  mkWorld (list_to_map (("PGDATA", "/data") :: l)) ∅ 70 (λ _, false) sql_fails.

(** What [load_config] gives in the process of [world_of l]. *)
Definition config_in (l : list (string * string)) : PGConfig :=
  match load_config (mkEnvironment (environ_of l) ∅) shlex_words 10 ∅ with
  | Ok (cfg, _) => cfg
  | _ => mkPGConfig [] [] None [] []
  end.

Definition cache_in (l : list (string * string))
    : gmap string (option string) :=
  match load_config (mkEnvironment (environ_of l) ∅) shlex_words 10 ∅ with
  | Ok (_, cache) => cache
  | _ => ∅
  end.

(** A resolver state that has read the variable [A] with the value x. *)
Definition st_read_A : rstate :=
  mkRState (<["A" := Some "x"]> ∅) ∅ ∅ None [] [] [].

(** * Properties *)

Local Arguments String.append !_ _ / : simpl nomatch.

Ltac list_cases H :=
  repeat (apply elem_of_cons in H as [->|H]);
  try (by apply elem_of_nil in H).

(** ** Reasoning about the process monad *)

Lemma M_bind_ok {A B} (m : M A) (k : A → M B) st b st' :
  (m ≫= k) st = (Ok b, st') →
  ∃ a st1, m st = (Ok a, st1) ∧ k a st1 = (Ok b, st').
Proof.
  unfold mbind, M_bind, M_bind_def.
  destruct (m st) as [[a| | | |] st1]; intros H; try discriminate.
  by exists a, st1.
Qed.

Lemma M_ret_ok {A} (a b : A) st st' :
  (mret a : M A) st = (Ok b, st') → b = a ∧ st' = st.
Proof. by intros [= -> ->]. Qed.

Lemma extend_extend st evs1 evs2 :
  extend (extend st evs1) evs2 = extend st (evs1 ++ evs2).
Proof. unfold extend; simpl. by rewrite app_assoc. Qed.

Lemma extend_nil st : extend st [] = st.
Proof. destruct st. unfold extend; simpl. by rewrite app_nil_r. Qed.

Section ScriptFacts.

Context (w : world) (UID : nat) (PGDATA : string)
  (os_environ : gmap string string)
  (shlex_split : string → option (list string)).

Lemma emit_ok e st a st' : emit e st = (Ok a, st') → st' = extend st [e].
Proof. by intros [= _ <-]. Qed.

Lemma check_call_ok argv st a st' :
  check_call w argv st = (Ok a, st') → st' = extend st [CheckCall argv].
Proof. unfold check_call. case_match; intros ?; by simplify_eq. Qed.

Lemma check_call_pipe_ok argv input st a st' :
  check_call_pipe w argv input st = (Ok a, st') →
  st' = extend st [CheckCallPipe argv input].
Proof. unfold check_call_pipe. case_match; intros ?; by simplify_eq. Qed.

Lemma call_load_config_ok fuel st cfg st' :
  call_load_config w os_environ shlex_split fuel st = (Ok cfg, st') →
  trace st' = trace st ∧
  ∃ cache', load_config (mkEnvironment os_environ (file_contents w))
              shlex_split fuel (env_cache st) = Ok (cfg, cache').
Proof.
  unfold call_load_config.
  destruct (load_config _ _ _ _) as [[cfg' cache']| | | |]; intros [= <- <-].
  eauto.
Qed.

Lemma for_each_M_ok {A} (body : A → M unit) (ev : A → list event) l :
  (∀ x st st', body x st = (Ok tt, st') → st' = extend st (ev x)) →
  ∀ st st', for_each_M l body st = (Ok tt, st') → st' = extend st (l ≫= ev).
Proof.
  intros Hbody. induction l as [|x l IH]; intros st st' H; simpl in *.
  - apply M_ret_ok in H as [_ ->]. by rewrite extend_nil.
  - apply M_bind_ok in H as ([] & st1 & H1 & H2).
    apply Hbody in H1. apply IH in H2. by rewrite H2, H1, extend_extend.
Qed.

Lemma psql_ok sql st a st' :
  psql w sql st = (Ok a, st') → st' = extend st [psql_event sql].
Proof. apply check_call_pipe_ok. Qed.

Lemma psql_db_ok db sql st a st' :
  psql_db w db sql st = (Ok a, st') → st' = extend st [psql_db_event db sql].
Proof. apply check_call_pipe_ok. Qed.

Lemma trust_loop_ok (l : list PGUser) (b : bool) st b' st' :
  for_fold_M l (λ any_trust user_config,
    if decide (password user_config = Some "")
    then add_trust PGDATA (name user_config);; mret true
    else mret any_trust) b st = (Ok b', st') →
  st' = extend st
    (Write (pg_hba PGDATA) ∘ trust_line <$>
       (name <$> filter (λ u, password u = Some "") l)) ∧
  b' = b || bool_decide (name <$> filter (λ u, password u = Some "") l ≠ []).
Proof.
  revert b st. induction l as [|u l IH]; intros b st H; simpl in H.
  - apply M_ret_ok in H as [-> ->]. simpl.
    by rewrite extend_nil, orb_false_r.
  - apply M_bind_ok in H as (b1 & st1 & H1 & H2).
    apply IH in H2 as [-> ->]. rewrite filter_cons.
    destruct (decide (password u = Some "")) as [Hu|Hu].
    + apply M_bind_ok in H1 as ([] & st2 & H1 & H3).
      apply M_ret_ok in H3 as [-> ->]. apply emit_ok in H1 as ->.
      rewrite extend_extend. simpl. by rewrite orb_true_r.
    + apply M_ret_ok in H1 as [-> ->]. done.
Qed.

Lemma database_body_ok (db : PGDatabase) st st' :
  (psql w (create_database_sql db);;
   psql_db w (db_name db) revoke_sql;;
   if Py.truthy_opt (owner db)
   then psql_db w (db_name db) (grant_sql db)
   else mret tt) st = (Ok tt, st') →
  st' = extend st (database_events db).
Proof.
  intros H. unfold database_events.
  apply M_bind_ok in H as ([] & st1 & H1 & H).
  apply M_bind_ok in H as ([] & st2 & H2 & H).
  apply psql_ok in H1 as ->. apply psql_db_ok in H2 as ->.
  destruct (Py.truthy_opt (owner db)).
  - apply psql_db_ok in H as ->. by rewrite !extend_extend.
  - apply M_ret_ok in H as [_ ->]. by rewrite !extend_extend.
Qed.

(** A first run of [setup] that reaches its end resolved a configuration
    and did exactly [first_run_events] of it. *)
Lemma setup_first_run fuel st st' :
  isfile w (path_join PGDATA "PG_VERSION") = false →
  setup w PGDATA os_environ shlex_split fuel st = (Ok tt, st') →
  ∃ cfg cache',
    load_config (mkEnvironment os_environ (file_contents w))
      shlex_split fuel (env_cache st) = Ok (cfg, cache') ∧
    trace st' = trace st ++ first_run_events PGDATA cfg.
Proof.
  intros Hmarker H. unfold setup in H. rewrite Hmarker in H.
  apply M_bind_ok in H as ([] & s1 & H1 & H). apply check_call_ok in H1 as ->.
  apply M_bind_ok in H as ([] & s2 & H2 & H). apply emit_ok in H2 as ->.
  apply M_bind_ok in H as ([] & s3 & H3 & H). apply emit_ok in H3 as ->.
  apply M_bind_ok in H as (cfg & s4 & H4 & H).
  apply call_load_config_ok in H4 as [H4 [cache' Hcfg]]. simpl in Hcfg.
  exists cfg, cache'. split; [done|].
  apply M_bind_ok in H as ([] & s5 & H5 & H). apply check_call_ok in H5 as ->.
  apply M_bind_ok in H as (b0 & s6 & H6 & H).
  apply M_bind_ok in H as (b1 & s7 & H7 & H).
  apply trust_loop_ok in H7 as [-> ->].
  apply M_bind_ok in H as ([] & s8 & H8 & H). apply emit_ok in H8 as ->.
  apply M_bind_ok in H as ([] & s9 & H9 & H).
  apply M_bind_ok in H as ([] & s10 & H10 & H). apply check_call_ok in H10 as ->.
  apply M_bind_ok in H as ([] & s11 & H11 & H).
  apply M_bind_ok in H as ([] & s12 & H12 & H).
  apply (for_each_M_ok _ (λ u, [psql_event (create_user_sql u)])) in H12 as ->;
    [|intros ???; apply psql_ok].
  apply M_bind_ok in H as ([] & s13 & H13 & H). apply psql_db_ok in H13 as ->.
  apply M_bind_ok in H as ([] & s14 & H14 & H).
  apply (for_each_M_ok _ database_events) in H14 as ->;
    [|intros ???; apply database_body_ok].
  apply M_bind_ok in H as ([] & s15 & H15 & H).
  apply (for_each_M_ok _ (λ c, [psql_event (alter_system_sql c)])) in H15 as ->;
    [|intros ???; apply psql_ok].
  apply M_bind_ok in H as ([] & s16 & H16 & H). apply check_call_ok in H16 as ->.
  apply emit_ok in H as ->.
  assert (s11 = extend s9
            (pg_ctl_start PGDATA :: if Py.truthy_opt (postgres_password cfg)
               then [psql_event (alter_postgres_sql (postgres_password cfg))]
               else [])) as ->.
  { destruct (Py.truthy_opt (postgres_password cfg)).
    - apply psql_ok in H11 as ->. by rewrite extend_extend.
    - by apply M_ret_ok in H11 as [_ ->]. }
  clear H11. unfold first_run_events, trusted.
  destruct (decide (postgres_password cfg = Some "")) as [Hpw|Hpw].
  - apply M_bind_ok in H6 as ([] & s5 & H5 & H6).
    apply M_ret_ok in H6 as [-> ->]. apply emit_ok in H5 as ->.
    simpl in H9. apply emit_ok in H9 as ->.
    simpl. rewrite H4. simpl. rewrite <-!app_assoc. simpl.
    repeat f_equal.
  - apply M_ret_ok in H6 as [-> ->]. simpl in H9.
    simpl. case_bool_decide.
    + apply emit_ok in H9 as ->.
      simpl. rewrite H4. simpl. rewrite <-!app_assoc. simpl.
      repeat f_equal.
    + apply M_ret_ok in H9 as [_ ->].
      simpl. rewrite H4. simpl. rewrite <-!app_assoc. simpl.
      repeat f_equal.
Qed.

End ScriptFacts.

(** ** Reasoning about the resolver monad *)

Lemma R_bind_ok {A B} (m : R A) (k : A → R B) st b st' :
  (m ≫= k) st = Ok (b, st') →
  ∃ a st1, m st = Ok (a, st1) ∧ k a st1 = Ok (b, st').
Proof.
  unfold mbind, R_bind, bind.
  destruct (m st) as [[a st1]| | | |]; intros H; try discriminate.
  by exists a, st1.
Qed.

Lemma preserves_run {A} (I : rstate → Prop) (m : R A) st a st' :
  preserves I m → I st → m st = Ok (a, st') → I st'.
Proof. intros Hm. apply Hm. Qed.

Section Preserves.

Context (I : rstate → Prop).

Lemma preserves_ret {A} (a : A) : preserves I (mret a).
Proof. by intros st a' st' HI [= _ <-]. Qed.

Lemma preserves_bind {A B} (m : R A) (k : A → R B) :
  preserves I m → (∀ a, preserves I (k a)) → preserves I (m ≫= k).
Proof.
  intros Hm Hk st b st' HI (a & st1 & H1 & H2)%R_bind_ok.
  eapply Hk; [|done]. by eapply Hm.
Qed.

Lemma preserves_error_exit {A} msg : preserves I (error_exit (A:=A) msg).
Proof. by intros st a st' _ ?. Qed.

Lemma preserves_raise {A} e : preserves I (raise (A:=A) e).
Proof. by intros st a st' _ ?. Qed.

Lemma preserves_out_of_fuel {A} : preserves I (out_of_fuel (A:=A)).
Proof. by intros st a st' _ ?. Qed.

Lemma preserves_get : preserves I get.
Proof. by intros st a st' HI [= _ <-]. Qed.

Lemma preserves_modify f : (∀ st, I st → I (f st)) → preserves I (modify f).
Proof.
  intros Hf st a st' HI H. unfold modify in H. simplify_eq. by apply Hf.
Qed.

Lemma preserves_for_each {A} (l : list A) (body : A → R unit) :
  (∀ x, preserves I (body x)) → preserves I (for_each l body).
Proof.
  intros Hbody. induction l as [|x l IH]; simpl.
  - apply preserves_ret.
  - apply preserves_bind; [apply Hbody|by intros _].
Qed.

Lemma preserves_apply2 func args :
  (∀ a b, preserves I (func a b)) → preserves I (apply2 func args).
Proof.
  intros Hf. unfold apply2.
  destruct args as [|a [|b [|c args]]]; auto using preserves_raise.
Qed.

End Preserves.

(** *** What the resolver keeps about users *)

Lemma registered_names seen l u :
  registered seen l → u ∈ l → name u ∈ seen ∧ name u ≠ Some "postgres".
Proof.
  induction 1 as [|seen l n pw su _ IH Hn Hpg|seen l _ IH Hpg]; intros Hu.
  - by apply elem_of_nil in Hu.
  - apply elem_of_app in Hu as [Hu|Hu%list_elem_of_singleton].
    + destruct (IH Hu). split; [set_solver|done].
    + subst u; simpl. split; [set_solver|done].
  - destruct (IH Hu). split; [set_solver|done].
Qed.

Lemma registered_NoDup seen l : registered seen l → NoDup (name <$> l).
Proof.
  induction 1 as [|seen l n pw su Hreg IH Hn Hpg|seen l _ IH Hpg]; simpl.
  - constructor.
  - rewrite fmap_app. apply NoDup_app. split; [done|]. split.
    + intros x (u & -> & Hu)%list_elem_of_fmap Hx%list_elem_of_singleton.
      simpl in Hx. destruct (registered_names _ _ _ Hreg Hu) as [Hin _].
      by rewrite Hx in Hin.
    + apply NoDup_singleton.
  - done.
Qed.

Lemma add_user_spec n pw su st :
  add_user n pw su st =
    if decide (n ∈ seen_users st)
    then Exit ("user " +:+ Py.fmt n +:+ " registered twice")
    else if decide (n = Some "postgres")
    then if su
         then Ok (tt, mkRState (ENV_CACHE st) ({[n]} ∪ seen_users st)
                        (seen_databases st) pw (users_list st)
                        (databases_list st) (db_config_list st))
         else Exit "cannot change postgres to a non-superuser"
    else Ok (tt, mkRState (ENV_CACHE st) ({[n]} ∪ seen_users st)
                   (seen_databases st) (postgres_password_cell st)
                   (users_list st ++ [mkPGUser n pw su])
                   (databases_list st) (db_config_list st)).
Proof.
  unfold add_user, mbind, R_bind, bind, get; simpl.
  destruct (decide (n ∈ seen_users st)); simpl; [done|].
  destruct (decide (n = Some "postgres")); simpl; [|done].
  by destruct su.
Qed.

Lemma add_database_users n o st a st' :
  add_database n o st = Ok (a, st') →
  seen_users st' = seen_users st ∧ users_list st' = users_list st ∧
  ENV_CACHE st' = ENV_CACHE st.
Proof.
  unfold add_database. destruct (decide (n = Some "postgres")).
  - destruct (decide (o ≠ None ∧ o ≠ Some "postgres")); [done|].
    intros H. unfold ret in H. by simplify_eq.
  - unfold mbind, R_bind, bind, get, ret, modify; simpl.
    destruct (decide (n ∈ seen_databases st)); simpl; [done|].
    intros H. by simplify_eq.
Qed.

Lemma file_env_users env var d st v st' :
  file_env env var d st = Ok (v, st') →
  seen_users st' = seen_users st ∧ users_list st' = users_list st.
Proof.
  unfold file_env. destruct (ENV_CACHE st !! var); [intros ?; by simplify_eq|].
  destruct (inner env var d); intros ?; by simplify_eq.
Qed.

Lemma add_db_conf_users n v st a st' :
  add_db_conf n v st = Ok (a, st') →
  seen_users st' = seen_users st ∧ users_list st' = users_list st.
Proof. unfold add_db_conf, modify. intros ?. by simplify_eq. Qed.

Lemma preserves_add_user n pw su : preserves users_inv (add_user n pw su).
Proof.
  intros st [] st' HI. rewrite add_user_spec. unfold users_inv in *.
  destruct (decide (n ∈ seen_users st)); [done|].
  destruct (decide (n = Some "postgres")) as [->|].
  - destruct su; intros [= <-]; simpl. by constructor.
  - intros [= <-]; simpl. by constructor.
Qed.

Lemma preserves_add_database n o : preserves users_inv (add_database n o).
Proof.
  intros st a st' HI (Hs & Hu & _)%add_database_users.
  unfold users_inv. by rewrite Hs, Hu.
Qed.

Lemma preserves_file_env env var d : preserves users_inv (file_env env var d).
Proof.
  intros st a st' HI (Hs & Hu)%file_env_users.
  unfold users_inv. by rewrite Hs, Hu.
Qed.

Lemma preserves_add_db_conf n v : preserves users_inv (add_db_conf n v).
Proof.
  intros st a st' HI (Hs & Hu)%add_db_conf_users.
  unfold users_inv. by rewrite Hs, Hu.
Qed.

Lemma preserves_add_user_from_multi n pw :
  preserves users_inv (add_user_from_multi n pw).
Proof.
  unfold add_user_from_multi. destruct n as [n|]; [|apply preserves_raise].
  destruct (Py.startswith _ _); apply preserves_add_user.
Qed.

Lemma preserves_double_split_apply env var func pad_len :
  (∀ a b, preserves users_inv (func a b)) →
  preserves users_inv (double_split_apply env var func pad_len).
Proof.
  intros Hf. unfold double_split_apply.
  apply preserves_bind; [apply preserves_file_env|].
  intros [s|]; [|apply preserves_raise].
  apply preserves_for_each. intros spec. by apply preserves_apply2.
Qed.

Lemma preserves_indexed_scheme env fuel i :
  preserves users_inv (indexed_scheme env fuel i).
Proof.
  revert i. induction fuel as [|fuel IH]; intros i; simpl.
  - apply preserves_out_of_fuel.
  - apply preserves_bind; [apply preserves_file_env|].
    intros [probe|]; [|apply preserves_ret].
    apply preserves_bind; [apply preserves_file_env|intros user].
    apply preserves_bind; [apply preserves_file_env|intros pw].
    apply preserves_bind; [apply preserves_file_env|intros super].
    apply preserves_bind; [apply preserves_add_user|intros _].
    apply preserves_bind; [apply preserves_file_env|intros dbs].
    apply preserves_bind; [|intros _; apply IH].
    destruct dbs; [|apply preserves_raise].
    apply preserves_for_each. intros db. apply preserves_add_database.
Qed.

(** Whatever [load_config] returns was built by registrations. *)
Lemma load_config_registered env sh fuel cache cfg cache' :
  load_config env sh fuel cache = Ok (cfg, cache') →
  ∃ seen, registered seen (users cfg).
Proof.
  unfold load_config.
  destruct (load_config_body env sh fuel (fresh cache))
    as [[cfg0 st]| | | |] eqn:Hbody; intros [= <- <-].
  unfold load_config_body in Hbody.
  apply R_bind_ok in Hbody as (raw & s1 & H1 & Hbody).
  apply R_bind_ok in Hbody as (args & s2 & H2 & Hbody).
  assert (users_inv s1) as Hs1.
  { eapply preserves_run; [apply preserves_file_env| |exact H1]. constructor. }
  assert (users_inv s2) as Hs2.
  { eapply preserves_run; [|exact Hs1|exact H2].
    destruct (raw ≫= sh); [apply preserves_ret|apply preserves_raise]. }
  apply R_bind_ok in Hbody as ([] & s3 & H3 & Hbody).
  apply R_bind_ok in Hbody as (u & s4 & H4 & Hbody).
  apply R_bind_ok in Hbody as ([] & s5 & H5 & Hbody).
  apply R_bind_ok in Hbody as (d & s6 & H6 & Hbody).
  apply R_bind_ok in Hbody as ([] & s7 & H7 & Hbody).
  apply R_bind_ok in Hbody as ([] & s8 & H8 & Hbody).
  apply R_bind_ok in Hbody as ([] & s9 & H9 & Hbody).
  apply R_bind_ok in Hbody as ([] & s10 & H10 & Hbody).
  apply R_bind_ok in Hbody as (st' & s11 & H11 & Hbody).
  unfold get in H11. unfold ret in Hbody. simplify_eq. simpl.
  exists (seen_users st).
  assert (users_inv s3) as Hs3.
  { eapply preserves_run; [|exact Hs2|exact H3].
    apply preserves_double_split_apply, preserves_add_db_conf. }
  assert (users_inv s4) as Hs4.
  { eapply preserves_run; [apply preserves_file_env|exact Hs3|exact H4]. }
  assert (users_inv s5) as Hs5.
  { eapply preserves_run; [|exact Hs4|exact H5].
    destruct u; [|apply preserves_ret].
    apply preserves_bind; [apply preserves_file_env|intros ?].
    apply preserves_bind; [apply preserves_file_env|intros ?].
    apply preserves_add_user. }
  assert (users_inv s6) as Hs6.
  { eapply preserves_run; [apply preserves_file_env|exact Hs5|exact H6]. }
  assert (users_inv s7) as Hs7.
  { eapply preserves_run; [|exact Hs6|exact H7].
    destruct d; [|apply preserves_ret].
    apply preserves_bind; [apply preserves_file_env|intros ?].
    apply preserves_bind; [apply preserves_file_env|intros ?].
    apply preserves_add_database. }
  assert (users_inv s8) as Hs8.
  { eapply preserves_run; [|exact Hs7|exact H8].
    apply preserves_double_split_apply, preserves_add_user_from_multi. }
  assert (users_inv s9) as Hs9.
  { eapply preserves_run; [|exact Hs8|exact H9].
    apply preserves_double_split_apply, preserves_add_database. }
  change (users_inv st).
  eapply preserves_run; [apply preserves_indexed_scheme|exact Hs9|exact H10].
Qed.

(** ** The keys of the indexed scheme

    ['POSTGRES_USER_{}'.format(i)] writes [i] in decimal: the keys of two
    indices differ, and none is a key of the other schemes. *)

Lemma pretty_N_char_digit x : is_digit (pretty_N_char x) = true.
Proof. unfold pretty_N_char. by repeat case_match. Qed.

Lemma pretty_N_go_digits x s :
  all_digits s = true → all_digits (pretty_N_go x s) = true.
Proof.
  revert s. induction (N.lt_wf_0 x) as [x _ IH]; intros s Hs.
  destruct (decide (x = 0)%N) as [->|].
  - by rewrite pretty_N_go_0.
  - rewrite pretty_N_go_step by lia. apply IH.
    + apply N.div_lt; lia.
    + simpl. by rewrite pretty_N_char_digit.
Qed.

Lemma pretty_N_go_nonempty x s : s ≠ "" → pretty_N_go x s ≠ "".
Proof.
  revert s. induction (N.lt_wf_0 x) as [x _ IH]; intros s Hs.
  destruct (decide (x = 0)%N) as [->|].
  - by rewrite pretty_N_go_0.
  - rewrite pretty_N_go_step by lia. apply IH; [apply N.div_lt; lia|done].
Qed.

Lemma pretty_nat_digits (n : nat) : all_digits (pretty n) = true.
Proof.
  unfold pretty, pretty_nat, pretty, pretty_N.
  case_decide; [done|]. by apply pretty_N_go_digits.
Qed.

Lemma pretty_nat_nonempty (n : nat) : pretty n ≠ "".
Proof.
  unfold pretty, pretty_nat, pretty, pretty_N.
  case_decide; [done|].
  rewrite pretty_N_go_step by lia. by apply pretty_N_go_nonempty.
Qed.

Lemma digits_app_inj a b x y :
  all_digits a = true → all_digits b = true →
  no_digit_head x → no_digit_head y →
  a +:+ x = b +:+ y → a = b ∧ x = y.
Proof.
  revert b. induction a as [|c a IH]; intros [|d b] Ha Hb Hx Hy H; simpl in *.
  - done.
  - subst x. simpl in Hx. apply andb_prop in Hb as [Hd _]. congruence.
  - subst y. simpl in Hy. apply andb_prop in Ha as [Hc _]. congruence.
  - apply andb_prop in Ha as [_ Ha]. apply andb_prop in Hb as [_ Hb].
    injection H as -> H. destruct (IH b Ha Hb Hx Hy H) as [-> ->]. done.
Qed.

Lemma pretty_nat_head (n : nat) :
  ∃ c r, pretty n = String c r ∧ is_digit c = true.
Proof.
  pose proof (pretty_nat_digits n) as Hd. pose proof (pretty_nat_nonempty n) as Hn.
  destruct (pretty n) as [|c r]; [done|].
  apply andb_prop in Hd as [Hc _]. eauto.
Qed.

Lemma append_empty_r (s : string) : s +:+ "" = s.
Proof. induction s as [|c s IH]; simpl; [done|]. by rewrite IH. Qed.

Lemma elem_of_keys_of_index j k :
  k ∈ keys_of_index j ↔
  ∃ base suf, base ∈ indexed_bases ∧ suf ∈ suffixes ∧
              k = indexed_var base j +:+ suf.
Proof.
  unfold keys_of_index. rewrite list_elem_of_bind.
  setoid_rewrite list_elem_of_bind. setoid_rewrite list_elem_of_singleton.
  naive_solver.
Qed.

Lemma suffix_no_digit suf : suf ∈ suffixes → no_digit_head suf.
Proof. unfold suffixes. intros H. by list_cases H. Qed.

Lemma fixed_not_later i var suf :
  var ∈ fixed_vars → suf ∈ suffixes → ¬ later_key i (var +:+ suf).
Proof.
  intros Hvar Hsuf (j & _ & (base & suf' & Hbase & Hsuf' & Hk)%elem_of_keys_of_index).
  unfold indexed_var in Hk.
  destruct (pretty_nat_head j) as (c & r & Hr & Hc). rewrite Hr in Hk.
  unfold fixed_vars, indexed_bases, suffixes in *.
  list_cases Hvar; list_cases Hbase; list_cases Hsuf; cbn in Hk;
  first [discriminate Hk
        | injection Hk as Hk _; subst c; vm_compute in Hc; discriminate Hc].
Qed.

Lemma indexed_not_later i j base suf :
  (j < i)%nat → base ∈ indexed_bases → suf ∈ suffixes →
  ¬ later_key i (indexed_var base j +:+ suf).
Proof.
  intros Hj Hbase Hsuf
    (j' & Hj' & (base' & suf' & Hbase' & Hsuf' & Hk)%elem_of_keys_of_index).
  apply suffix_no_digit in Hsuf, Hsuf'.
  unfold indexed_var, indexed_bases in *.
  list_cases Hbase; list_cases Hbase'; cbn in Hk;
  first [discriminate Hk | injection Hk as Hk];
  apply digits_app_inj in Hk as [Hk%(inj pretty) _];
    auto using pretty_nat_digits; lia.
Qed.

(** ** Two environments that differ from a gap on

    The resolver is run on two environments that agree on every key but
    those of the indexed scheme at index [i] or more, in both of which
    [POSTGRES_USER_i] is unset. The two runs go in step. *)

Lemma add_user_no_fuel n pw su st : add_user n pw su st ≠ OutOfFuel.
Proof. rewrite add_user_spec. by repeat case_match. Qed.

Lemma add_user_cache n pw su st a st' :
  add_user n pw su st = Ok (a, st') → ENV_CACHE st' = ENV_CACHE st.
Proof. rewrite add_user_spec. repeat case_match; intros ?; by simplify_eq. Qed.

Lemma add_database_no_fuel n o st : add_database n o st ≠ OutOfFuel.
Proof.
  unfold add_database, mbind, R_bind, bind, get, ret, modify, error_exit.
  by repeat case_match.
Qed.

Lemma prefix_app p s t :
  String.prefix p s = true → String.prefix p (s +:+ t) = true.
Proof.
  revert s. induction p as [|a p IH]; intros [|c s]; simpl; try done.
  - intros _. by destruct t.
  - destruct (ascii_dec a c); [apply IH|done].
Qed.

Lemma fixed_prefix var :
  var ∈ fixed_vars → String.prefix "POSTGRES_" var = true.
Proof. unfold fixed_vars. intros H. by list_cases H. Qed.

Lemma indexed_prefix base j :
  base ∈ indexed_bases → String.prefix "POSTGRES_" (indexed_var base j) = true.
Proof. unfold indexed_bases. intros H. by list_cases H. Qed.

Section GapSteps.

Context (env1 env2 : environment) (i : nat).
Hypothesis same_files : files env1 = files env2.
Hypothesis agree :
  ∀ k, String.prefix "POSTGRES_" k = true → ¬ later_key i k →
       environ env1 !! k = environ env2 !! k.
Hypothesis unset1 : ∀ suf, suf ∈ suffixes →
  environ env1 !! (indexed_var "POSTGRES_USER" i +:+ suf) = None.
Hypothesis unset2 : ∀ suf, suf ∈ suffixes →
  environ env2 !! (indexed_var "POSTGRES_USER" i +:+ suf) = None.

Lemma in_step_bind {A B} (m1 m2 : R A) (k1 k2 : A → R B) :
  in_step i m1 m2 → (∀ a, in_step i (k1 a) (k2 a)) →
  in_step i (m1 ≫= k1) (m2 ≫= k2).
Proof.
  intros Hm Hk st Hst. destruct (Hm st Hst) as (Heq & Hne & Hpost).
  unfold mbind, R_bind, bind. rewrite <-Heq.
  destruct (m1 st) as [[a st1]| | | |]; try done.
  apply Hk. by eapply Hpost.
Qed.

Lemma in_step_same {A} (m : R A) :
  (∀ st, m st ≠ OutOfFuel) →
  (∀ st a st', m st = Ok (a, st') → ENV_CACHE st' = ENV_CACHE st) →
  in_step i m m.
Proof.
  intros Hne Hcache st Hst. split; [done|]. split; [apply Hne|].
  intros a st' H v. rewrite (Hcache _ _ _ H). apply Hst.
Qed.

Lemma in_step_ret {A} (a : A) : in_step i (mret a) (mret a).
Proof.
  apply in_step_same; [done|].
  intros st a' st' H. unfold mret, R_ret, ret in H. by simplify_eq.
Qed.

Lemma in_step_raise {A} e : in_step i (raise (A:=A) e) (raise e).
Proof. by apply in_step_same. Qed.

Lemma in_step_add_user n pw su : in_step i (add_user n pw su) (add_user n pw su).
Proof. apply in_step_same; [apply add_user_no_fuel|apply add_user_cache]. Qed.

Lemma in_step_add_database n o :
  in_step i (add_database n o) (add_database n o).
Proof.
  apply in_step_same; [apply add_database_no_fuel|].
  intros st a st' H. by apply add_database_users in H as (_ & _ & ?).
Qed.

Lemma in_step_add_user_from_multi n pw :
  in_step i (add_user_from_multi n pw) (add_user_from_multi n pw).
Proof.
  unfold add_user_from_multi. destruct n as [n|]; [|apply in_step_raise].
  destruct (Py.startswith _ _); apply in_step_add_user.
Qed.

Lemma in_step_add_db_conf n v : in_step i (add_db_conf n v) (add_db_conf n v).
Proof.
  apply in_step_same; [done|].
  unfold add_db_conf, modify. intros st a st' ?. by simplify_eq.
Qed.

Lemma in_step_for_each {A} (l : list A) (body1 body2 : A → R unit) :
  (∀ x, in_step i (body1 x) (body2 x)) →
  in_step i (for_each l body1) (for_each l body2).
Proof.
  intros Hbody. induction l as [|x l IH]; simpl.
  - apply in_step_ret.
  - apply in_step_bind; [apply Hbody|by intros _].
Qed.

Lemma in_step_apply2 func1 func2 args :
  (∀ a b, in_step i (func1 a b) (func2 a b)) →
  in_step i (apply2 func1 args) (apply2 func2 args).
Proof.
  intros Hf. unfold apply2.
  destruct args as [|a [|b [|c args]]]; auto using in_step_raise.
Qed.

Lemma user_i_later suf :
  suf ∈ suffixes → later_key i (indexed_var "POSTGRES_USER" i +:+ suf).
Proof.
  intros Hsuf. exists i. split; [done|].
  apply elem_of_keys_of_index. exists "POSTGRES_USER", suf.
  split; [|done]. unfold indexed_bases. apply elem_of_cons. by left.
Qed.

Lemma inner_agree var d :
  String.prefix "POSTGRES_" var = true →
  (∀ suf, suf ∈ suffixes → ¬ later_key i (var +:+ suf)) →
  inner env1 var d = inner env2 var d.
Proof.
  intros Hp Hvar. unfold inner.
  assert (environ env1 !! var = environ env2 !! var) as ->.
  { apply agree; [done|]. rewrite <-(append_empty_r var). apply Hvar.
    unfold suffixes. apply elem_of_cons. by left. }
  assert (environ env1 !! (var +:+ "_FILE")
          = environ env2 !! (var +:+ "_FILE")) as ->.
  { apply agree; [by apply prefix_app|]. apply Hvar.
    unfold suffixes. apply elem_of_cons. right. apply elem_of_cons. by left. }
  by rewrite same_files.
Qed.

Lemma in_step_file_env var d :
  String.prefix "POSTGRES_" var = true →
  (∀ suf, suf ∈ suffixes → ¬ later_key i (var +:+ suf)) →
  in_step i (file_env env1 var d) (file_env env2 var d).
Proof.
  intros Hp Hvar st Hst. unfold file_env. rewrite (inner_agree var d Hp Hvar).
  assert (var ≠ indexed_var "POSTGRES_USER" i) as Hne.
  { intros ->. apply (Hvar ""); [unfold suffixes; apply elem_of_cons; by left|].
    apply user_i_later. unfold suffixes. apply elem_of_cons. by left. }
  split; [done|].
  destruct (ENV_CACHE st !! var) as [v|].
  - split; [done|]. intros a st' ?. by simplify_eq.
  - unfold inner. split; [by repeat case_match|].
    intros a st' H v.
    destruct (if decide _ then _ else _); simplify_eq. simpl.
    rewrite lookup_insert_ne by done. apply Hst.
Qed.

Lemma in_step_double_split_apply var func pad_len :
  var ∈ fixed_vars →
  (∀ a b, in_step i (func a b) (func a b)) →
  in_step i (double_split_apply env1 var func pad_len)
          (double_split_apply env2 var func pad_len).
Proof.
  intros Hvar Hf. unfold double_split_apply.
  apply in_step_bind.
  { apply in_step_file_env; [by apply fixed_prefix|].
    intros suf Hsuf. by apply fixed_not_later. }
  intros [s|]; [|apply in_step_raise].
  apply in_step_for_each. intros spec. by apply in_step_apply2.
Qed.

(** At index [i] both runs leave the loop. *)
Lemma file_env_gap env st :
  (∀ suf, suf ∈ suffixes →
     environ env !! (indexed_var "POSTGRES_USER" i +:+ suf) = None) →
  gap_inv i st →
  ∃ st', file_env env (indexed_var "POSTGRES_USER" i) None st = Ok (None, st')
         ∧ gap_inv i st' ∧
         st' = match ENV_CACHE st !! indexed_var "POSTGRES_USER" i with
               | Some _ => st
               | None =>
                   mkRState
                     (<[indexed_var "POSTGRES_USER" i := None]> (ENV_CACHE st))
                     (seen_users st) (seen_databases st)
                     (postgres_password_cell st) (users_list st)
                     (databases_list st) (db_config_list st)
               end.
Proof.
  intros Hunset Hst. unfold file_env.
  destruct (ENV_CACHE st !! indexed_var "POSTGRES_USER" i) as [v|] eqn:Hc.
  - rewrite (Hst v Hc). by exists st.
  - assert (inner env (indexed_var "POSTGRES_USER" i) None = Ok None) as ->.
    { unfold inner.
      pose proof (Hunset "") as H0. rewrite append_empty_r in H0.
      rewrite H0 by (unfold suffixes; apply elem_of_cons; by left).
      rewrite Hunset
        by (unfold suffixes; apply elem_of_cons; right; apply elem_of_cons;
            by left).
      case_decide as H; [|done]. by destruct H as [[] _]. }
    eexists. split; [done|]. split; [|done].
    intros v. simpl. rewrite lookup_insert_eq. by intros [= <-].
Qed.

Lemma in_step_indexed_scheme fuel j :
  (j ≤ i)%nat → (i - j < fuel)%nat →
  in_step i (indexed_scheme env1 fuel j) (indexed_scheme env2 fuel j).
Proof.
  revert j. induction fuel as [|fuel IH]; intros j Hj Hfuel; [lia|]. simpl.
  destruct (decide (j = i)) as [->|Hne].
  - intros st Hst.
    destruct (file_env_gap env1 st unset1 Hst) as (s1 & H1 & Hs1 & E1).
    destruct (file_env_gap env2 st unset2 Hst) as (s2 & H2 & _ & E2).
    unfold mbind, R_bind, bind. rewrite H1, H2. subst s2. rewrite <-E1.
    split; [done|]. split; [done|]. intros a st'. unfold ret. intros ?.
    by simplify_eq.
  - assert (∀ base suf, base ∈ indexed_bases → suf ∈ suffixes →
              ¬ later_key i (indexed_var base j +:+ suf)) as Hearly.
    { intros base suf ??. apply indexed_not_later; [lia|done..]. }
    assert (∀ base, base ∈ indexed_bases → ∀ d,
              in_step i (file_env env1 (indexed_var base j) d)
                      (file_env env2 (indexed_var base j) d)) as Hfile.
    { intros base Hbase d. apply in_step_file_env; [by apply indexed_prefix|].
      intros suf Hsuf. by apply Hearly. }
    apply in_step_bind;
      [apply Hfile; unfold indexed_bases; set_solver|].
    intros [probe|]; [|apply in_step_ret].
    apply in_step_bind; [apply Hfile; unfold indexed_bases; set_solver|].
    intros user.
    apply in_step_bind; [apply Hfile; unfold indexed_bases; set_solver|].
    intros pw.
    apply in_step_bind; [apply Hfile; unfold indexed_bases; set_solver|].
    intros super.
    apply in_step_bind; [apply in_step_add_user|intros _].
    apply in_step_bind; [apply Hfile; unfold indexed_bases; set_solver|].
    intros dbs.
    apply in_step_bind; [|intros _; apply IH; lia].
    destruct dbs; [|apply in_step_raise].
    apply in_step_for_each. intros db. apply in_step_add_database.
Qed.

Lemma in_step_load_config_body sh fuel :
  (i < fuel)%nat →
  in_step i (load_config_body env1 sh fuel) (load_config_body env2 sh fuel).
Proof.
  intros Hfuel. unfold load_config_body.
  assert (∀ var d, var ∈ fixed_vars →
            in_step i (file_env env1 var d) (file_env env2 var d)) as Hfile.
  { intros var d Hvar. apply in_step_file_env; [by apply fixed_prefix|].
    intros suf Hsuf. by apply fixed_not_later. }
  apply in_step_bind; [apply Hfile; unfold fixed_vars; set_solver|].
  intros raw.
  apply in_step_bind.
  { destruct (raw ≫= sh); [apply in_step_ret|apply in_step_raise]. }
  intros args.
  apply in_step_bind.
  { apply in_step_double_split_apply; [unfold fixed_vars; set_solver|].
    apply in_step_add_db_conf. }
  intros _.
  apply in_step_bind; [apply Hfile; unfold fixed_vars; set_solver|].
  intros u.
  apply in_step_bind.
  { destruct u; [|apply in_step_ret].
    apply in_step_bind; [apply Hfile; unfold fixed_vars; set_solver|].
    intros u1.
    apply in_step_bind; [apply Hfile; unfold fixed_vars; set_solver|].
    intros pw. apply in_step_add_user. }
  intros _.
  apply in_step_bind; [apply Hfile; unfold fixed_vars; set_solver|].
  intros d.
  apply in_step_bind.
  { destruct d; [|apply in_step_ret].
    apply in_step_bind; [apply Hfile; unfold fixed_vars; set_solver|].
    intros n.
    apply in_step_bind; [apply Hfile; unfold fixed_vars; set_solver|].
    intros o. apply in_step_add_database. }
  intros _.
  apply in_step_bind.
  { apply in_step_double_split_apply; [unfold fixed_vars; set_solver|].
    apply in_step_add_user_from_multi. }
  intros _.
  apply in_step_bind.
  { apply in_step_double_split_apply; [unfold fixed_vars; set_solver|].
    apply in_step_add_database. }
  intros _.
  apply in_step_bind; [apply in_step_indexed_scheme; lia|].
  intros _.
  apply in_step_bind; [|intros st; apply in_step_ret].
  apply in_step_same; [done|]. unfold get. intros st a st' ?. by simplify_eq.
Qed.

Lemma load_config_in_step sh fuel :
  (i < fuel)%nat →
  load_config env1 sh fuel ∅ = load_config env2 sh fuel ∅ ∧
  load_config env1 sh fuel ∅ ≠ OutOfFuel.
Proof.
  intros Hfuel.
  destruct (in_step_load_config_body sh fuel Hfuel (fresh ∅))
    as (Heq & Hne & _).
  { intros v. unfold fresh; simpl. by rewrite lookup_empty. }
  unfold load_config. rewrite <-Heq.
  split; [done|].
  by destruct (load_config_body env1 sh fuel (fresh ∅)) as [[??]| | | |].
Qed.

End GapSteps.

Section Gap.

Context (env1 env2 : environment) (i : nat).
Hypothesis same_files : files env1 = files env2.
Hypothesis agree :
  ∀ k, ¬ later_key i k → environ env1 !! k = environ env2 !! k.
Hypothesis unset1 : ∀ suf, suf ∈ suffixes →
  environ env1 !! (indexed_var "POSTGRES_USER" i +:+ suf) = None.
Hypothesis unset2 : ∀ suf, suf ∈ suffixes →
  environ env2 !! (indexed_var "POSTGRES_USER" i +:+ suf) = None.

(** C6. Let [POSTGRES_USER_i] be unset, also as a file, in two
    environments that agree on every key except the keys of the indexed
    scheme at the indices from [i] on. Then [load_config] gives the same
    result on both, after at most [i + 1] rounds of its loop: what is
    declared at an index from [i] on is not looked at. *)
Theorem indexed_scheme_ignores_from_gap sh fuel :
  (i < fuel)%nat →
  load_config env1 sh fuel ∅ = load_config env2 sh fuel ∅ ∧
  load_config env1 sh fuel ∅ ≠ OutOfFuel.
Proof.
  apply (load_config_in_step env1 env2 i same_files (λ k _, agree k)
           unset1 unset2).
Qed.

End Gap.

(** ** The loop of the indexed scheme ends

    The environment is a finite map, so some [POSTGRES_USER_i] is unset:
    with enough fuel [load_config] never runs out of it, and more fuel
    does not change what it returns. *)

Lemma length_filter_cover {A} (P Q : A → Prop)
    `{!∀ x, Decision (P x), !∀ x, Decision (Q x)} (l : list A) :
  (∀ x, x ∈ l → P x ∨ Q x) →
  (length l ≤ length (filter P l) + length (filter Q l))%nat.
Proof.
  induction l as [|x l IH]; intros Hl; simpl; [lia|].
  rewrite !filter_cons.
  assert (length l ≤ length (filter P l) + length (filter Q l))%nat.
  { apply IH. intros y Hy. apply Hl. by apply elem_of_cons; right. }
  destruct (Hl x) as [HP|HQ]; [by apply elem_of_cons; left|..].
  - rewrite decide_True by done. destruct (decide (Q x)); simpl; lia.
  - rewrite (decide_True (P:=Q x)) by done. destruct (decide (P x)); simpl; lia.
Qed.

Lemma length_filter_image (keys : gset string) (f : nat → string)
    `{!Inj (=) (=) f} (l : list nat) :
  NoDup l → (length (filter (λ j, f j ∈ keys) l) ≤ size keys)%nat.
Proof.
  intros Hl. rewrite <-(length_fmap f).
  unfold size, set_size; simpl. apply submseteq_length, NoDup_submseteq.
  - by apply (NoDup_fmap_2 f), NoDup_filter.
  - intros k (j & -> & [Hj _]%list_elem_of_filter)%list_elem_of_fmap.
    by apply elem_of_elements.
Qed.

(** An index at which neither of two injective key families is taken. *)
Lemma free_index (keys : gset string) (f g : nat → string)
    `{!Inj (=) (=) f, !Inj (=) (=) g} :
  ∃ j, (f j ∉ keys) ∧ (g j ∉ keys).
Proof.
  set (l := seq 0 (S (2 * size keys))).
  destruct (decide (Exists (λ j, (f j ∉ keys) ∧ (g j ∉ keys)) l)) as [H|H].
  { apply Exists_exists in H as (j & _ & Hj). eauto. }
  exfalso. apply not_Exists_Forall in H; [|apply _].
  rewrite Forall_forall in H.
  assert (length l ≤ length (filter (λ j, f j ∈ keys) l)
                     + length (filter (λ j, g j ∈ keys) l))%nat as Hcover.
  { apply length_filter_cover. intros j Hj. specialize (H j Hj). simpl in H.
    destruct (decide (f j ∈ keys)); [by left|].
    destruct (decide (g j ∈ keys)); [by right|]. by destruct H. }
  pose proof (length_filter_image keys f l (NoDup_seq _ _)).
  pose proof (length_filter_image keys g l (NoDup_seq _ _)).
  unfold l in Hcover at 1. rewrite length_seq in Hcover. lia.
Qed.

Global Instance indexed_var_inj base : Inj (=) (=) (indexed_var base).
Proof.
  intros j1 j2 H. unfold indexed_var in H.
  apply (inj (String.append base)), (inj (String.append "_")) in H.
  by apply (inj pretty).
Qed.

Global Instance indexed_file_var_inj base :
  Inj (=) (=) (λ j, indexed_var base j +:+ "_FILE").
Proof.
  intros j1 j2 H. apply (inj (indexed_var base)).
  rewrite <-(append_empty_r (indexed_var base j1)),
          <-(append_empty_r (indexed_var base j2)).
  unfold indexed_var in *.
  assert (∀ a b c : string, (a +:+ b) +:+ c = a +:+ (b +:+ c)) as Hassoc.
  { intros a b c. induction a as [|x a IH]; simpl; [done|]. by rewrite IH. }
  rewrite !Hassoc in *. f_equal. f_equal.
  apply (inj (String.append base)), (inj (String.append "_")) in H.
  apply digits_app_inj in H as [-> _];
    auto using pretty_nat_digits. done. done.
Qed.

(** From the start of the process, some amount of fuel is enough. *)
Lemma load_config_terminates env sh :
  ∃ fuel, load_config env sh fuel ∅ ≠ OutOfFuel.
Proof.
  destruct (free_index (dom (environ env)) (indexed_var "POSTGRES_USER")
              (λ j, indexed_var "POSTGRES_USER" j +:+ "_FILE")) as (j & Hj1 & Hj2).
  apply not_elem_of_dom in Hj1, Hj2.
  assert (∀ suf, suf ∈ suffixes →
            environ env !! (indexed_var "POSTGRES_USER" j +:+ suf) = None)
    as Hunset.
  { intros suf Hsuf. unfold suffixes in Hsuf. list_cases Hsuf; [|done].
    by rewrite append_empty_r. }
  exists (S j).
  by apply (load_config_in_step env env j eq_refl
              (λ _ _ _, eq_refl) Hunset Hunset sh (S j)); lia.
Qed.

Lemma bind_more_fuel {A B} (m : R A) (k1 k2 : A → R B) st :
  (∀ a st', k1 a st' ≠ OutOfFuel → k2 a st' = k1 a st') →
  (m ≫= k1) st ≠ OutOfFuel → (m ≫= k2) st = (m ≫= k1) st.
Proof.
  intros Hk. unfold mbind, R_bind, bind.
  destruct (m st) as [[a st']| | | |]; try done. apply Hk.
Qed.

Lemma indexed_scheme_more_fuel env fuel fuel' i st :
  (fuel ≤ fuel')%nat →
  indexed_scheme env fuel i st ≠ OutOfFuel →
  indexed_scheme env fuel' i st = indexed_scheme env fuel i st.
Proof.
  revert fuel' i st. induction fuel as [|fuel IH]; intros fuel' i st Hle H.
  { by destruct H. }
  destruct fuel' as [|fuel']; [lia|]. revert H. simpl.
  apply bind_more_fuel. intros [probe|] s1; [|done].
  apply bind_more_fuel. intros user s2.
  apply bind_more_fuel. intros pw s3.
  apply bind_more_fuel. intros super s4.
  apply bind_more_fuel. intros [] s5.
  apply bind_more_fuel. intros dbs s6.
  apply bind_more_fuel. intros [] s7. apply IH. lia.
Qed.

(** What [load_config] returns does not depend on the fuel, once there
    is enough of it. *)
Lemma load_config_more_fuel env sh fuel fuel' cache :
  (fuel ≤ fuel')%nat →
  load_config env sh fuel cache ≠ OutOfFuel →
  load_config env sh fuel' cache = load_config env sh fuel cache.
Proof.
  intros Hle H. unfold load_config in *.
  cut (load_config_body env sh fuel' (fresh cache)
       = load_config_body env sh fuel (fresh cache)); [by intros ->|].
  assert (load_config_body env sh fuel (fresh cache) ≠ OutOfFuel) as H'.
  { intros E. by rewrite E in H. }
  revert H'. clear H. generalize (fresh cache). intros st.
  unfold load_config_body.
  apply bind_more_fuel. intros raw s1.
  apply bind_more_fuel. intros args s2.
  apply bind_more_fuel. intros [] s3.
  apply bind_more_fuel. intros u s4.
  apply bind_more_fuel. intros [] s5.
  apply bind_more_fuel. intros d s6.
  apply bind_more_fuel. intros [] s7.
  apply bind_more_fuel. intros [] s8.
  apply bind_more_fuel. intros [] s9.
  intros H. unfold mbind, R_bind, bind in *.
  rewrite (indexed_scheme_more_fuel env fuel fuel' 0 s9 Hle); [done|].
  intros E. by rewrite E in H.
Qed.

(** ** Reserved name and duplicates *)

(** C7. Whenever [load_config] returns a configuration, no listed user
    is named postgres. Registering postgres as a superuser stores the
    password in the separate cell and adds no list entry; registering it
    as a non-superuser is an [error_exit], whatever the state. *)
Theorem postgres_never_listed env sh fuel cache cfg cache' :
  load_config env sh fuel cache = Ok (cfg, cache') →
  (∀ u, u ∈ users cfg → name u ≠ Some "postgres") ∧
  (∀ pw st st', add_user (Some "postgres") pw true st = Ok (tt, st') →
     postgres_password_cell st' = pw ∧ users_list st' = users_list st) ∧
  (∀ pw st,
     add_user (Some "postgres") pw false st
     = Exit (if decide (Some "postgres" ∈ seen_users st)
             then "user postgres registered twice"
             else "cannot change postgres to a non-superuser")).
Proof.
  intros Hcfg. split; [|split].
  - intros u Hu. destruct (load_config_registered _ _ _ _ _ _ Hcfg) as [seen Hreg].
    by destruct (registered_names _ _ _ Hreg Hu).
  - intros pw st st'. rewrite add_user_spec.
    destruct (decide (_ ∈ _)); [done|]. destruct (decide (_ = _)); [|done].
    intros ?. by simplify_eq.
  - intros pw st. rewrite add_user_spec.
    destruct (decide (_ ∈ _)); [done|]. by destruct (decide (_ = _)).
Qed.

(** C8. A name that was registered is in [seen_users], nothing removes
    it from there, and registering a name that is in [seen_users] is an
    [error_exit] with the message "user ... registered twice", whichever
    scheme asks for it. So a configuration that [load_config] returns
    lists no user name twice. *)
Theorem duplicate_user_is_fatal :
  (∀ n pw su st, n ∈ seen_users st →
     add_user n pw su st = Exit ("user " +:+ Py.fmt n +:+ " registered twice")) ∧
  (∀ n pw su st st', add_user n pw su st = Ok (tt, st') →
     seen_users st' = {[n]} ∪ seen_users st) ∧
  (∀ env var d st v st', file_env env var d st = Ok (v, st') →
     seen_users st' = seen_users st) ∧
  (∀ n o st st', add_database n o st = Ok (tt, st') →
     seen_users st' = seen_users st) ∧
  (∀ n v st st', add_db_conf n v st = Ok (tt, st') →
     seen_users st' = seen_users st) ∧
  (∀ env sh fuel cache cfg cache',
     load_config env sh fuel cache = Ok (cfg, cache') →
     NoDup (name <$> users cfg)).
Proof.
  split_and!.
  - intros n pw su st Hn. rewrite add_user_spec. by rewrite decide_True.
  - intros n pw su st st'. rewrite add_user_spec.
    repeat case_match; intros ?; by simplify_eq.
  - intros env var d st v st' H. by apply file_env_users in H as [? _].
  - intros n o st st' H. by apply add_database_users in H as [? _].
  - intros n v st st' H. by apply add_db_conf_users in H as [? _].
  - intros env sh fuel cache cfg cache' Hcfg.
    destruct (load_config_registered _ _ _ _ _ _ Hcfg) as [seen Hreg].
    by eapply registered_NoDup.
Qed.

(** ** What a trace shows *)

Lemma omap_fmap_Some {A B C} (f : B → option C) (g : A → B) (h : A → C) (l : list A) :
  (∀ x, f (g x) = Some (h x)) → omap f (g <$> l) = h <$> l.
Proof. intros Hfg. induction l as [|x l IH]; csimpl; [done|]. by rewrite Hfg, IH. Qed.

Lemma omap_fmap_None {A B C} (f : B → option C) (g : A → B) (l : list A) :
  (∀ x, f (g x) = None) → omap f (g <$> l) = [].
Proof. intros Hfg. induction l as [|x l IH]; csimpl; [done|]. by rewrite Hfg, IH. Qed.

Lemma omap_bind_nil {A B C} (f : B → option C) (g : A → list B) (l : list A) :
  (∀ x, omap f (g x) = []) → omap f (l ≫= g) = [].
Proof.
  intros Hfg. induction l as [|x l IH]; csimpl; [done|].
  by rewrite omap_app, Hfg, IH.
Qed.

Lemma filter_fmap_all {A B} (P : B → Prop) `{!∀ x, Decision (P x)}
    (g : A → B) (l : list A) :
  (∀ x, P (g x)) → filter P (g <$> l) = g <$> l.
Proof.
  intros Hg. induction l as [|x l IH]; csimpl; [done|].
  rewrite filter_cons. destruct (decide (P (g x))); [by rewrite IH|].
  naive_solver.
Qed.

Lemma filter_fmap_none {A B} (P : B → Prop) `{!∀ x, Decision (P x)}
    (g : A → B) (l : list A) :
  (∀ x, ¬ P (g x)) → filter P (g <$> l) = [].
Proof.
  intros Hg. induction l as [|x l IH]; csimpl; [done|].
  rewrite filter_cons. destruct (decide (P (g x))); [|by rewrite IH].
  naive_solver.
Qed.

Lemma filter_bind_none {A B} (P : B → Prop) `{!∀ x, Decision (P x)}
    (g : A → list B) (l : list A) :
  (∀ x, filter P (g x) = []) → filter P (l ≫= g) = [].
Proof.
  intros Hg. induction l as [|x l IH]; csimpl; [done|].
  by rewrite filter_app, Hg, IH.
Qed.

Lemma truthy_opt_spec (v : option string) :
  Py.truthy_opt v = true ↔ v ≠ None ∧ v ≠ Some "".
Proof.
  destruct v as [[|c s]|]; simpl; split; try done.
  - by intros [_ ?].
  - by intros [? _].
Qed.

Section Executor.

Context (w : world) (UID : nat) (PGDATA : string)
  (os_environ : gmap string string)
  (shlex_split : string → option (list string)).

Lemma writes_first_run cfg :
  writes_to (pg_hba PGDATA) (first_run_events PGDATA cfg)
  = (trust_line <$> trusted cfg) ++ [md5_line].
Proof.
  unfold first_run_events, writes_to.
  rewrite !omap_app.
  rewrite (omap_fmap_Some _ _ trust_line); [|intros x; simpl; by case_decide].
  rewrite (omap_fmap_None _ (psql_event ∘ create_user_sql)); [|done].
  rewrite (omap_fmap_None _ (psql_event ∘ alter_system_sql)); [|done].
  rewrite omap_bind_nil;
    [|intros db; unfold database_events; by destruct (Py.truthy_opt (owner db))].
  simpl. case_decide; [|done].
  destruct (bool_decide _), (Py.truthy_opt _); simpl; by rewrite ?app_nil_r.
Qed.

Lemma stderr_first_run cfg :
  stderr_of (first_run_events PGDATA cfg)
  = if bool_decide (trusted cfg ≠ []) then [WARNING] else [].
Proof.
  unfold first_run_events, stderr_of.
  rewrite !omap_app.
  rewrite (omap_fmap_None _ (Write (pg_hba PGDATA) ∘ trust_line)); [|done].
  rewrite (omap_fmap_None _ (psql_event ∘ create_user_sql)); [|done].
  rewrite (omap_fmap_None _ (psql_event ∘ alter_system_sql)); [|done].
  rewrite omap_bind_nil;
    [|intros db; unfold database_events; by destruct (Py.truthy_opt (owner db))].
  simpl.
  destruct (bool_decide _), (Py.truthy_opt _); simpl; by rewrite ?app_nil_r.
Qed.

Lemma sql_of_app tr1 tr2 : sql_of (tr1 ++ tr2) = sql_of tr1 ++ sql_of tr2.
Proof. apply omap_app. Qed.

Lemma sql_of_psql_events {A} (f : A → string) (l : list A) :
  sql_of (psql_event ∘ f <$> l) = f <$> l.
Proof. by apply omap_fmap_Some. Qed.

Lemma sql_of_database_events (l : list PGDatabase) :
  sql_of (l ≫= database_events) = l ≫= database_sql.
Proof.
  induction l as [|db l IH]; csimpl; [done|].
  rewrite sql_of_app, IH. unfold database_events, database_sql.
  by destruct (Py.truthy_opt (owner db)).
Qed.

Lemma sql_of_trust_writes (l : list (option string)) :
  sql_of (Write (pg_hba PGDATA) ∘ trust_line <$> l) = [].
Proof. by apply omap_fmap_None. Qed.

Lemma sql_first_run cfg :
  sql_of (first_run_events PGDATA cfg)
  = (if Py.truthy_opt (postgres_password cfg)
     then [alter_postgres_sql (postgres_password cfg)] else [])
    ++ (create_user_sql <$> users cfg)
    ++ [revoke_sql]
    ++ (databases cfg ≫= database_sql)
    ++ (alter_system_sql <$> db_config cfg).
Proof.
  unfold first_run_events.
  rewrite !sql_of_app, !sql_of_psql_events, sql_of_database_events,
    sql_of_trust_writes.
  simpl.
  destruct (bool_decide _), (Py.truthy_opt _); simpl; by rewrite ?app_nil_r.
Qed.

Lemma trust_line_not_md5 n : trust_line n ≠ md5_line.
Proof.
  unfold trust_line, md5_line. generalize (Py.fmt n). intros s H.
  cbn in H. injection H as H.
  repeat (destruct s as [|? s]; cbn in H; [discriminate|]; injection H as _ H).
  destruct s; discriminate.
Qed.


Lemma elem_of_trusted cfg n :
  n ∈ trusted cfg ↔
    (n = Some "postgres" ∧ postgres_password cfg = Some "")
    ∨ ∃ u, u ∈ users cfg ∧ name u = n ∧ password u = Some "".
Proof.
  unfold trusted. rewrite elem_of_app, list_elem_of_fmap.
  setoid_rewrite list_elem_of_filter.
  case_decide; [rewrite list_elem_of_singleton|rewrite elem_of_nil];
    naive_solver.
Qed.

(** C4. A first run of [setup] that reaches its end appends to
    pg_hba.conf one trust rule for each account (postgres or a resolved
    user) whose resolved password is the empty string and for no other,
    then the single md5 catch-all rule, and prints the warning on stderr
    exactly when it appended a trust rule. *)
Theorem trust_rules_then_md5_and_warning fuel st st' :
  isfile w (path_join PGDATA "PG_VERSION") = false →
  setup w PGDATA os_environ shlex_split fuel st = (Ok tt, st') →
  ∃ cfg cache' evs accounts,
    load_config (mkEnvironment os_environ (file_contents w))
      shlex_split fuel (env_cache st) = Ok (cfg, cache') ∧
    trace st' = trace st ++ evs ∧
    writes_to (pg_hba PGDATA) evs = (trust_line <$> accounts) ++ [md5_line] ∧
    (md5_line ∉ trust_line <$> accounts) ∧
    (∀ n, n ∈ accounts ↔
       (n = Some "postgres" ∧ postgres_password cfg = Some "")
       ∨ ∃ u, u ∈ users cfg ∧ name u = n ∧ password u = Some "") ∧
    stderr_of evs = if bool_decide (accounts ≠ []) then [WARNING] else [].
Proof.
  intros Hmarker Hrun.
  destruct (setup_first_run w PGDATA os_environ shlex_split fuel st st'
              Hmarker Hrun) as (cfg & cache' & Hcfg & Htr).
  exists cfg, cache', (first_run_events PGDATA cfg), (trusted cfg).
  split_and!; [done|done|apply writes_first_run| |apply elem_of_trusted
              |apply stderr_first_run].
  intros (n & Hn & _)%list_elem_of_fmap. by apply (trust_line_not_md5 n).
Qed.

(** C5, as amended. When the marker file is there, [setup] makes the
    data directory ([mkdir -p], [chown -R], [chmod 700]), says that it
    skips, and does nothing else: it does not resolve the configuration
    and makes no provisioning call (no initdb, no write to pg_hba.conf,
    no pg_ctl, no psql). *)
Theorem marker_skips_provisioning fuel st :
  isfile w (path_join PGDATA "PG_VERSION") = true →
  ∃ evs,
    (setup w PGDATA os_environ shlex_split fuel st).2 = extend st evs ∧
    Forall (λ e, provisioning e = false) evs ∧
    (((setup w PGDATA os_environ shlex_split fuel st).1 = Ok tt ∧
      evs = [CheckCall ["mkdir"; "-p"; PGDATA];
             Call ["chown"; "-R"; PGUID; PGDATA];
             Call ["chmod"; "700"; PGDATA];
             Print "database already created, skipping setup"])
     ∨ ((setup w PGDATA os_environ shlex_split fuel st).1
          = Raise (CalledProcessError ["mkdir"; "-p"; PGDATA]) ∧
        evs = [CheckCall ["mkdir"; "-p"; PGDATA]])).
Proof.
  intros Hmarker. unfold setup. rewrite Hmarker.
  unfold mbind, M_bind, M_bind_def, check_call, call, emit; simpl.
  destruct (succeeds w (trace st) _); simpl.
  - eexists. split; [|split; [|left; split; reflexivity]].
    + unfold extend; simpl. by rewrite <-!app_assoc.
    + repeat constructor.
  - eexists. split; [|split; [|right; split; reflexivity]].
    + done.
    + repeat constructor.
Qed.

(** C9, as amended. In a first run of [setup] that reaches its end, the
    ALTER of the postgres account is issued, right after the temporary
    server started, exactly when the resolved postgres password is a
    non-empty string; it sets that password and repeats SUPERUSER. With
    no password or the empty password no such ALTER is issued. *)
Theorem alter_postgres_iff_nonempty_password fuel st st' :
  isfile w (path_join PGDATA "PG_VERSION") = false →
  setup w PGDATA os_environ shlex_split fuel st = (Ok tt, st') →
  ∃ cfg cache' pre post,
    load_config (mkEnvironment os_environ (file_contents w))
      shlex_split fuel (env_cache st) = Ok (cfg, cache') ∧
    trace st' = trace st ++ pre ++ [pg_ctl_start PGDATA]
      ++ match postgres_password cfg with
         | Some (String c pw) =>
             [psql_event ("ALTER USER " +:+ dq +:+ "postgres" +:+ dq +:+
                          " WITH SUPERUSER PASSWORD '" +:+ String c pw +:+ "'")]
         | _ => []
         end
      ++ post ∧
    filter (λ sql, is_alter_postgres sql = true) (sql_of (pre ++ post)) = [].
Proof.
  intros Hmarker Hrun.
  destruct (setup_first_run w PGDATA os_environ shlex_split fuel st st'
              Hmarker Hrun) as (cfg & cache' & Hcfg & Htr).
  exists cfg, cache'.
  exists ([CheckCall ["mkdir"; "-p"; PGDATA];
           Call ["chown"; "-R"; PGUID; PGDATA];
           Call ["chmod"; "700"; PGDATA];
           CheckCall (["initdb"; "--username=postgres"] ++ init_args cfg)]
          ++ (Write (pg_hba PGDATA) ∘ trust_line <$> trusted cfg)
          ++ [Write (pg_hba PGDATA) md5_line]
          ++ (if bool_decide (trusted cfg ≠ []) then [PrintErr WARNING] else [])),
         ((psql_event ∘ create_user_sql <$> users cfg)
          ++ [psql_db_event (Some "postgres") revoke_sql]
          ++ (databases cfg ≫= database_events)
          ++ (psql_event ∘ alter_system_sql <$> db_config cfg)
          ++ [CheckCall ["pg_ctl"; "-D"; PGDATA; "-m"; "fast"; "-w"; "stop"];
              Print (nl +:+ "PostgreSQL init process complete; ready for start up."
                     +:+ nl)]).
  split; [done|]. split.
  - rewrite Htr. unfold first_run_events. rewrite <-!app_assoc.
    do 6 f_equal. by destruct (postgres_password cfg) as [[|??]|].
  - rewrite !sql_of_app, !sql_of_psql_events, sql_of_database_events,
      sql_of_trust_writes.
    rewrite !filter_app, !filter_fmap_none; [|done..].
    rewrite filter_bind_none;
      [|by intros db; unfold database_sql; destruct (Py.truthy_opt (owner db))].
    simpl. by destruct (bool_decide _).
Qed.

(** C2, as amended. In a first run of [setup] that reaches its end, the
    CREATE USER statements issued are those of the resolved users, in
    their order, and the statement of a user has a PASSWORD clause
    exactly when the password is a non-empty string: a user whose
    password is absent or the empty string gets none. *)
Theorem create_user_password_clause fuel st st' :
  isfile w (path_join PGDATA "PG_VERSION") = false →
  setup w PGDATA os_environ shlex_split fuel st = (Ok tt, st') →
  ∃ cfg cache' evs,
    load_config (mkEnvironment os_environ (file_contents w))
      shlex_split fuel (env_cache st) = Ok (cfg, cache') ∧
    trace st' = trace st ++ evs ∧
    filter (λ sql, is_create_user sql = true) (sql_of evs)
      = create_user_sql <$> users cfg ∧
    ∀ u, create_user_sql u
         = "CREATE USER " +:+ dq +:+ Py.fmt (name u) +:+ dq +:+ " WITH "
           +:+ match password u with
               | Some (String c pw) => "PASSWORD '" +:+ String c pw +:+ "'"
               | _ => ""
               end
           +:+ " " +:+ (if superuser u then "SUPERUSER" else "").
Proof.
  intros Hmarker Hrun.
  destruct (setup_first_run w PGDATA os_environ shlex_split fuel st st'
              Hmarker Hrun) as (cfg & cache' & Hcfg & Htr).
  exists cfg, cache', (first_run_events PGDATA cfg).
  split; [done|]. split; [done|]. split.
  - rewrite sql_first_run, !filter_app.
    rewrite filter_fmap_all; [|done].
    rewrite filter_fmap_none; [|done].
    rewrite filter_bind_none;
      [|by intros db; unfold database_sql; destruct (Py.truthy_opt (owner db))].
    destruct (Py.truthy_opt _); simpl; by rewrite app_nil_r.
  - intros [n [[|c pw]|] su]; done.
Qed.

(** C10. Whatever the surroundings, [main] given a program name of one
    character ends in an uncaught IndexError, at [sys.argv[1][1]], before
    it ran anything. *)
Theorem main_one_character_name fuel a0 c rest cache tr :
  main w UID PGDATA os_environ shlex_split fuel
    (mkPState (a0 :: String c "" :: rest) cache tr)
  = (Raise IndexError, mkPState (a0 :: String c "" :: rest) cache tr).
Proof.
  unfold main, mbind, M_bind, M_bind_def; simpl. done.
Qed.

End Executor.

(** ** The resolver on the examples of the documentation *)

(** C3, refuted as stated. On [POSTGRES_USERS=alice:secret|!bob:] and
    [POSTGRES_DATABASES=d1:alice|d2] the resolver does not return bob
    with the password None. *)
Lemma multi_example_bob_password_not_None :
  ¬ ∃ cfg,
      resolve [("POSTGRES_USERS", "alice:secret|!bob:");
               ("POSTGRES_DATABASES", "d1:alice|d2")] = Ok cfg ∧
      users cfg = [mkPGUser (Some "alice") (Some "secret") false;
                   mkPGUser (Some "bob") None true] ∧
      databases cfg = [mkPGDatabase (Some "d1") (Some "alice");
                       mkPGDatabase (Some "d2") None].
Proof. intros (cfg & Hcfg & Husers & _). vm_compute in Hcfg. by simplify_eq. Qed.

(** C3, as amended. On that input the resolver returns the users alice
    (password "secret", not superuser) and bob (password the empty
    string, superuser) and the databases d1 (owner alice) and d2 (no
    owner), in that order. *)
Theorem multi_example_resolves :
  resolve [("POSTGRES_USERS", "alice:secret|!bob:");
           ("POSTGRES_DATABASES", "d1:alice|d2")]
  = Ok (mkPGConfig [] [] None
          [mkPGUser (Some "alice") (Some "secret") false;
           mkPGUser (Some "bob") (Some "") true]
          [mkPGDatabase (Some "d1") (Some "alice");
           mkPGDatabase (Some "d2") None]).
Proof. vm_compute. reflexivity. Qed.

(** C1. With [POSTGRES_USER=alice] and [POSTGRES_DATABASE=mydb] the one
    database registered is named alice, after the user: the value of
    [POSTGRES_DATABASE] is only tested for being set. *)
Theorem single_scheme_database_named_after_user :
  resolve [("POSTGRES_USER", "alice"); ("POSTGRES_DATABASE", "mydb")]
  = Ok (mkPGConfig [] [] None
          [mkPGUser (Some "alice") None true]
          [mkPGDatabase (Some "alice") (Some "alice")]).
Proof. vm_compute. reflexivity. Qed.

(** With [POSTGRES_DATABASE] alone, the database registered has the name
    None. *)
Example single_scheme_database_without_user :
  resolve [("POSTGRES_DATABASE", "mydb")]
  = Ok (mkPGConfig [] [] None [] [mkPGDatabase None None]).
Proof. vm_compute. reflexivity. Qed.

(** The example of the indexed scheme: index 1 is missing, dave at index
    2 is not seen. *)
Example indexed_example_resolves :
  resolve [("POSTGRES_USER_0", "carol"); ("POSTGRES_DATABASES_0", "x|y");
           ("POSTGRES_USER_2", "dave")]
  = Ok (mkPGConfig [] [] None
          [mkPGUser (Some "carol") None false]
          [mkPGDatabase (Some "x") (Some "carol");
           mkPGDatabase (Some "y") (Some "carol")]).
Proof. vm_compute. reflexivity. Qed.

(** Duplicates across and within schemes. *)
Example duplicate_single_and_indexed :
  resolve [("POSTGRES_USER", "alice"); ("POSTGRES_USER_0", "alice")]
  = Exit "user alice registered twice".
Proof. vm_compute. reflexivity. Qed.

Example duplicate_single_and_multi :
  resolve [("POSTGRES_USER", "alice"); ("POSTGRES_USERS", "!alice:pw")]
  = Exit "user alice registered twice".
Proof. vm_compute. reflexivity. Qed.

Example duplicate_multi_and_indexed :
  resolve [("POSTGRES_USERS", "bob:x"); ("POSTGRES_USER_0", "carol");
           ("POSTGRES_USER_1", "bob")]
  = Exit "user bob registered twice".
Proof. vm_compute. reflexivity. Qed.

Example duplicate_within_multi :
  resolve [("POSTGRES_USERS", "bob:x|bob:y")]
  = Exit "user bob registered twice".
Proof. vm_compute. reflexivity. Qed.

Example duplicate_postgres :
  resolve [("POSTGRES_USER", "postgres"); ("POSTGRES_USERS", "!postgres:pw")]
  = Exit "user postgres registered twice".
Proof. vm_compute. reflexivity. Qed.

Example postgres_not_superuser :
  resolve [("POSTGRES_USERS", "postgres:pw")]
  = Exit "cannot change postgres to a non-superuser".
Proof. vm_compute. reflexivity. Qed.

Example postgres_password_slot :
  resolve [("POSTGRES_USERS", "!postgres:pw|bob:x")]
  = Ok (mkPGConfig [] [] (Some "pw") [mkPGUser (Some "bob") (Some "x") false] []).
Proof. vm_compute. reflexivity. Qed.

(** ** The executor on concrete runs *)

(** C5, refuted as stated. With the marker file there, [setup] still
    runs three external commands on the data directory. *)
Lemma marker_run_calls_out :
  isfile (world_of [] true 70) (path_join "/data" "PG_VERSION") = true ∧
  filter (λ e, external_call e = true)
    (drop 1 (trace (setup_of [] true).2))
  = [CheckCall ["mkdir"; "-p"; "/data"];
     Call ["chown"; "-R"; "postgres"; "/data"];
     Call ["chmod"; "700"; "/data"]].
Proof. split; vm_compute; reflexivity. Qed.

(** C9, refuted as stated. [POSTGRES_USERS=!postgres:] resolves the
    postgres password to the empty string, which is not None, and a
    first run issues no ALTER of the postgres account. *)
Lemma empty_postgres_password_no_alter :
  (∃ cfg, resolve [("POSTGRES_USERS", "!postgres:")] = Ok cfg ∧
          postgres_password cfg = Some "") ∧
  (setup_of [("POSTGRES_USERS", "!postgres:")] false).1 = Ok tt ∧
  filter (λ sql, is_alter_postgres sql = true)
    (sql_of (trace (setup_of [("POSTGRES_USERS", "!postgres:")] false).2))
  = [].
Proof.
  split; [eexists; split; vm_compute; reflexivity|].
  split; vm_compute; reflexivity.
Qed.

(** C2, refuted as stated. [POSTGRES_USERS=!bob:] resolves bob with the
    empty string as password, which is not None, and the CREATE USER
    statement of a first run has no PASSWORD clause. *)
Lemma empty_password_no_clause :
  (∃ cfg, resolve [("POSTGRES_USERS", "!bob:")] = Ok cfg ∧
          users cfg = [mkPGUser (Some "bob") (Some "") true]) ∧
  (setup_of [("POSTGRES_USERS", "!bob:")] false).1 = Ok tt ∧
  filter (λ sql, is_create_user sql = true)
    (sql_of (trace (setup_of [("POSTGRES_USERS", "!bob:")] false).2))
  = ["CREATE USER " +:+ dq +:+ "bob" +:+ dq +:+ " WITH  SUPERUSER"] ∧
  Py.contains "PASSWORD"
    ("CREATE USER " +:+ dq +:+ "bob" +:+ dq +:+ " WITH  SUPERUSER") = false.
Proof.
  split; [eexists; split; vm_compute; reflexivity|].
  split; [|split]; vm_compute; reflexivity.
Qed.

(** C10 on a run of the whole script: [docker-entrypoint.py w]. *)
Example script_one_character_name :
  run [] true 70 ["docker-entrypoint.py"; "w"]
  = (Raise IndexError, [CheckOutput ["id"; "-u"]]).
Proof. vm_compute. reflexivity. Qed.

Example script_two_character_name :
  run [] true 70 ["docker-entrypoint.py"; "ls"; "-l"]
  = (Replaced, [CheckOutput ["id"; "-u"]; Execlp "ls" ["ls"; "-l"]]).
Proof. vm_compute. reflexivity. Qed.

(** [-c ...] is not taken for server options, [--...] is. *)
Example script_dash_option :
  (run [] true 70 ["docker-entrypoint.py"; "-c"; "fsync=off"]).2
  = [CheckOutput ["id"; "-u"]; Execlp "-c" ["-c"; "fsync=off"]].
Proof. vm_compute. reflexivity. Qed.

(** ** Instances of the theorems above *)

Lemma duplicate_user_is_fatal_witness :
  Some "alice" ∈ seen_users st_alice ∧
  add_user (Some "alice") (Some "pw") false st_alice
  = Exit "user alice registered twice".
Proof.
  assert (Some "alice" ∈ seen_users st_alice) as Hin.
  { apply (bool_decide_unpack _). vm_compute. exact I. }
  split; [exact Hin|].
  exact (proj1 duplicate_user_is_fatal (Some "alice") (Some "pw") false
           st_alice Hin).
Defined.

Lemma postgres_never_listed_witness :
  let l := [("POSTGRES_USERS", "!postgres:pw|bob:x")] in
  let cfg := mkPGConfig [] [] (Some "pw")
               [mkPGUser (Some "bob") (Some "x") false] [] in
  load_config (env_of l) shlex_words 10 ∅ = Ok (cfg, cache_of l) ∧
  (∀ u, u ∈ users cfg → name u ≠ Some "postgres").
Proof.
  assert (load_config (env_of [("POSTGRES_USERS", "!postgres:pw|bob:x")])
            shlex_words 10 ∅
          = Ok (mkPGConfig [] [] (Some "pw")
                  [mkPGUser (Some "bob") (Some "x") false] [],
                cache_of [("POSTGRES_USERS", "!postgres:pw|bob:x")])) as H.
  { vm_compute. reflexivity. }
  split; [exact H|].
  exact (proj1 (postgres_never_listed _ _ _ _ _ _ H)).
Defined.

Lemma indexed_scheme_ignores_from_gap_witness :
  load_config gap_env1 shlex_words 10 ∅ = load_config gap_env2 shlex_words 10 ∅
  ∧ load_config gap_env1 shlex_words 10 ∅ ≠ OutOfFuel.
Proof.
  apply (indexed_scheme_ignores_from_gap gap_env1 gap_env2 1).
  - reflexivity.
  - intros k Hk. destruct (decide (k = "POSTGRES_USER_2")) as [->|Hne].
    + destruct Hk. exists 2%nat. split; [lia|].
      apply (bool_decide_unpack _). vm_compute. exact I.
    + simpl. by rewrite lookup_insert_ne.
  - intros suf Hsuf. list_cases Hsuf; vm_compute; reflexivity.
  - intros suf Hsuf. list_cases Hsuf; vm_compute; reflexivity.
  - lia.
Defined.

Lemma trust_rules_then_md5_and_warning_witness :
  let w := world_of full_example false 70 in
  let st' := (setup_of full_example false).2 in
  isfile w (path_join "/data" "PG_VERSION") = false ∧
  setup w "/data" (environ_of full_example) shlex_words 10 st_postgres
    = (Ok tt, st') ∧
  ∃ cfg cache' evs accounts,
    load_config (mkEnvironment (environ_of full_example) (file_contents w))
      shlex_words 10 (env_cache st_postgres) = Ok (cfg, cache') ∧
    trace st' = trace st_postgres ++ evs ∧
    writes_to (pg_hba "/data") evs = (trust_line <$> accounts) ++ [md5_line] ∧
    (md5_line ∉ trust_line <$> accounts) ∧
    (∀ n, n ∈ accounts ↔
       (n = Some "postgres" ∧ postgres_password cfg = Some "")
       ∨ ∃ u, u ∈ users cfg ∧ name u = n ∧ password u = Some "") ∧
    stderr_of evs = if bool_decide (accounts ≠ []) then [WARNING] else [].
Proof.
  intros w st'.
  assert (isfile w (path_join "/data" "PG_VERSION") = false) as Hm.
  { vm_compute. reflexivity. }
  assert (setup w "/data" (environ_of full_example) shlex_words 10 st_postgres
          = (Ok tt, st')) as Hrun.
  { vm_compute. reflexivity. }
  split; [exact Hm|]. split; [exact Hrun|].
  exact (trust_rules_then_md5_and_warning w "/data" (environ_of full_example)
           shlex_words 10 st_postgres st' Hm Hrun).
Defined.

Lemma alter_postgres_iff_nonempty_password_witness :
  let w := world_of full_example false 70 in
  let st' := (setup_of full_example false).2 in
  isfile w (path_join "/data" "PG_VERSION") = false ∧
  setup w "/data" (environ_of full_example) shlex_words 10 st_postgres
    = (Ok tt, st') ∧
  ∃ cfg cache' pre post,
    load_config (mkEnvironment (environ_of full_example) (file_contents w))
      shlex_words 10 (env_cache st_postgres) = Ok (cfg, cache') ∧
    trace st' = trace st_postgres ++ pre ++ [pg_ctl_start "/data"]
      ++ match postgres_password cfg with
         | Some (String c pw) =>
             [psql_event ("ALTER USER " +:+ dq +:+ "postgres" +:+ dq +:+
                          " WITH SUPERUSER PASSWORD '" +:+ String c pw +:+ "'")]
         | _ => []
         end
      ++ post ∧
    filter (λ sql, is_alter_postgres sql = true) (sql_of (pre ++ post)) = [].
Proof.
  intros w st'.
  assert (isfile w (path_join "/data" "PG_VERSION") = false) as Hm.
  { vm_compute. reflexivity. }
  assert (setup w "/data" (environ_of full_example) shlex_words 10 st_postgres
          = (Ok tt, st')) as Hrun.
  { vm_compute. reflexivity. }
  split; [exact Hm|]. split; [exact Hrun|].
  exact (alter_postgres_iff_nonempty_password w "/data"
           (environ_of full_example) shlex_words 10 st_postgres st' Hm Hrun).
Defined.

Lemma create_user_password_clause_witness :
  let w := world_of full_example false 70 in
  let st' := (setup_of full_example false).2 in
  isfile w (path_join "/data" "PG_VERSION") = false ∧
  setup w "/data" (environ_of full_example) shlex_words 10 st_postgres
    = (Ok tt, st') ∧
  ∃ cfg cache' evs,
    load_config (mkEnvironment (environ_of full_example) (file_contents w))
      shlex_words 10 (env_cache st_postgres) = Ok (cfg, cache') ∧
    trace st' = trace st_postgres ++ evs ∧
    filter (λ sql, is_create_user sql = true) (sql_of evs)
      = create_user_sql <$> users cfg ∧
    ∀ u, create_user_sql u
         = "CREATE USER " +:+ dq +:+ Py.fmt (name u) +:+ dq +:+ " WITH "
           +:+ match password u with
               | Some (String c pw) => "PASSWORD '" +:+ String c pw +:+ "'"
               | _ => ""
               end
           +:+ " " +:+ (if superuser u then "SUPERUSER" else "").
Proof.
  intros w st'.
  assert (isfile w (path_join "/data" "PG_VERSION") = false) as Hm.
  { vm_compute. reflexivity. }
  assert (setup w "/data" (environ_of full_example) shlex_words 10 st_postgres
          = (Ok tt, st')) as Hrun.
  { vm_compute. reflexivity. }
  split; [exact Hm|]. split; [exact Hrun|].
  exact (create_user_password_clause w "/data" (environ_of full_example)
           shlex_words 10 st_postgres st' Hm Hrun).
Defined.

Lemma marker_skips_provisioning_witness :
  let w := world_of full_example true 70 in
  let r := setup w "/data" (environ_of full_example) shlex_words 10
             st_postgres in
  isfile w (path_join "/data" "PG_VERSION") = true ∧
  ∃ evs,
    r.2 = extend st_postgres evs ∧
    Forall (λ e, provisioning e = false) evs ∧
    ((r.1 = Ok tt ∧
      evs = [CheckCall ["mkdir"; "-p"; "/data"];
             Call ["chown"; "-R"; PGUID; "/data"];
             Call ["chmod"; "700"; "/data"];
             Print "database already created, skipping setup"])
     ∨ (r.1 = Raise (CalledProcessError ["mkdir"; "-p"; "/data"]) ∧
        evs = [CheckCall ["mkdir"; "-p"; "/data"]])).
Proof.
  intros w r.
  assert (isfile w (path_join "/data" "PG_VERSION") = true) as Hm.
  { vm_compute. reflexivity. }
  split; [exact Hm|].
  exact (marker_skips_provisioning w "/data" (environ_of full_example)
           shlex_words 10 st_postgres Hm).
Defined.

(** * Further properties *)

(** ** [file_env] *)

(** X1. Once [file_env] has returned a value for a variable, every later
    call for that variable returns the same value and changes nothing,
    whatever the default it is given and whatever the environment has
    become. *)
Theorem file_env_memoized env env' var d d' st v st' :
  file_env env var d st = Ok (v, st') →
  file_env env' var d' st' = Ok (v, st').
Proof.
  unfold file_env.
  destruct (ENV_CACHE st !! var) as [c|] eqn:Hc.
  - intros ?. simplify_eq. by rewrite Hc.
  - destruct (inner env var d); intros ?; simplify_eq. simpl.
    by rewrite lookup_insert_eq.
Qed.

(** X2. A variable that is set both directly and through its [_FILE]
    variant makes the first read of it an [error_exit], whatever the two
    values are. *)
Theorem file_env_both_set env var d st :
  ENV_CACHE st !! var = None →
  is_Some (environ env !! var) →
  is_Some (environ env !! (var +:+ "_FILE")) →
  file_env env var d st
  = Exit (var +:+ " and " +:+ (var +:+ "_FILE")
          +:+ " were set, only one allowed").
Proof.
  intros Hc Hv Hf. unfold file_env, inner. rewrite Hc.
  by rewrite decide_True.
Qed.







(** ** [rpad] *)

Lemma length_rpad (lst : list (option string)) (n : nat) :
  length (rpad lst n) = (length lst `max` n)%nat.
Proof.
  unfold rpad. case_decide; [lia|].
  rewrite length_app, length_replicate. lia.
Qed.

(** X4. [rpad] never shortens: the list it returns begins with the list
    it was given, has the length of the longer of that list and [n], and
    holds None at every place it added. *)
Theorem rpad_spec (lst : list (option string)) (n : nat) :
  length (rpad lst n) = (length lst `max` n)%nat ∧
  take (length lst) (rpad lst n) = lst ∧
  ∀ k, (length lst ≤ k < n)%nat → rpad lst n !! k = Some None.
Proof.
  unfold rpad. case_decide.
  - split; [lia|]. split; [by rewrite firstn_all|]. intros k ?. lia.
  - split; [rewrite length_app, length_replicate; lia|].
    split; [by rewrite take_app_length|].
    intros k Hk. rewrite lookup_app_r by lia.
    apply lookup_replicate_2. lia.
Qed.

(** ** The entries of the pipe-delimited lists *)

Lemma split_no_sep sep s : has_char sep s = false → Py.split sep s = [s].
Proof.
  induction s as [|c s IH]; simpl; [done|].
  destruct (Ascii.eqb c sep); simpl; [done|]. intros H. by rewrite IH.
Qed.

Lemma split_app sep a b :
  has_char sep a = false →
  Py.split sep (a +:+ String sep b) = a :: Py.split sep b.
Proof.
  induction a as [|c a IH]; simpl.
  - by rewrite Ascii.eqb_refl.
  - destruct (Ascii.eqb c sep); simpl; [done|]. intros H. by rewrite IH.
Qed.

Lemma length_split sep s : length (Py.split sep s) = S (count_char sep s).
Proof.
  induction s as [|c s IH]; simpl; [done|].
  destruct (Ascii.eqb c sep); simpl; [by rewrite IH|].
  destruct (Py.split sep s); simpl in *; lia.
Qed.

(** X5. How [double_split_apply] calls [func] on one entry. An entry
    without a colon gives (entry, None) when padded to two and a
    TypeError when not padded; an entry [a:b] gives (a, b), both
    trimmed; an entry with two colons or more is a TypeError. *)
Theorem entry_arguments
    (func : option string → option string → R unit) (spec a b : string) :
  (has_char ":" spec = false →
     apply2 func (rpad (Some ∘ Py.strip <$> Py.split ":" spec) 2)
     = func (Some (Py.strip spec)) None ∧
     apply2 func (rpad (Some ∘ Py.strip <$> Py.split ":" spec) 0)
     = raise TypeError) ∧
  (has_char ":" a = false → has_char ":" b = false →
     ∀ pad_len, (pad_len ≤ 2)%nat →
     apply2 func (rpad (Some ∘ Py.strip <$> Py.split ":" (a +:+ String ":" b))
                    pad_len)
     = func (Some (Py.strip a)) (Some (Py.strip b))) ∧
  ((2 ≤ count_char ":" spec)%nat →
     ∀ pad_len,
     apply2 func (rpad (Some ∘ Py.strip <$> Py.split ":" spec) pad_len)
     = raise TypeError).
Proof.
  split; [|split].
  - intros H. by rewrite split_no_sep.
  - intros Ha Hb pad_len Hpad. rewrite split_app, split_no_sep by done.
    unfold rpad. simpl. by rewrite decide_True by lia.
  - intros H pad_len.
    pose proof (length_rpad (Some ∘ Py.strip <$> Py.split ":" spec) pad_len)
      as Hlen.
    rewrite length_fmap, length_split in Hlen.
    destruct (rpad _ pad_len) as [|x [|y [|z l]]]; simpl in *; (done || lia).
Qed.

(** ** Databases *)

Lemma registered_dbs_names seen l d :
  registered_dbs seen l → d ∈ l →
  db_name d ∈ seen ∧ db_name d ≠ Some "postgres".
Proof.
  induction 1 as [|seen l n o _ IH Hn Hpg]; intros Hd.
  - by apply elem_of_nil in Hd.
  - apply elem_of_app in Hd as [Hd|Hd%list_elem_of_singleton].
    + destruct (IH Hd). split; [set_solver|done].
    + subst d; simpl. split; [set_solver|done].
Qed.

Lemma registered_dbs_NoDup seen l :
  registered_dbs seen l → NoDup (db_name <$> l).
Proof.
  induction 1 as [|seen l n o Hreg IH Hn Hpg]; simpl; [constructor|].
  rewrite fmap_app. apply NoDup_app. split; [done|]. split.
  - intros x (d & -> & Hd)%list_elem_of_fmap Hx%list_elem_of_singleton.
    simpl in Hx. destruct (registered_dbs_names _ _ _ Hreg Hd) as [Hin _].
    by rewrite Hx in Hin.
  - apply NoDup_singleton.
Qed.

Lemma preserves_dbs_add_user n pw su : preserves dbs_inv (add_user n pw su).
Proof.
  intros st [] st' HI. rewrite add_user_spec. unfold dbs_inv in *.
  repeat case_match; intros ?; by simplify_eq.
Qed.

Lemma preserves_dbs_add_database n o : preserves dbs_inv (add_database n o).
Proof.
  intros st [] st' HI. unfold add_database, dbs_inv in *.
  destruct (decide (n = Some "postgres")).
  - destruct (decide (o ≠ None ∧ o ≠ Some "postgres")); [done|].
    unfold ret. intros ?. by simplify_eq.
  - unfold mbind, R_bind, bind, get, ret, modify; simpl.
    destruct (decide (n ∈ seen_databases st)); simpl; [done|].
    intros ?. simplify_eq. simpl. by constructor.
Qed.

Lemma preserves_dbs_file_env env var d : preserves dbs_inv (file_env env var d).
Proof.
  intros st a st' HI. unfold file_env, dbs_inv in *.
  destruct (ENV_CACHE st !! var); [intros ?; by simplify_eq|].
  destruct (inner env var d); intros ?; by simplify_eq.
Qed.

Lemma preserves_dbs_add_db_conf n v : preserves dbs_inv (add_db_conf n v).
Proof.
  intros st a st' HI. unfold add_db_conf, modify, dbs_inv in *.
  intros ?. by simplify_eq.
Qed.

Lemma preserves_dbs_add_user_from_multi n pw :
  preserves dbs_inv (add_user_from_multi n pw).
Proof.
  unfold add_user_from_multi. destruct n as [n|]; [|apply preserves_raise].
  destruct (Py.startswith _ _); apply preserves_dbs_add_user.
Qed.

Lemma preserves_dbs_double_split_apply env var func pad_len :
  (∀ a b, preserves dbs_inv (func a b)) →
  preserves dbs_inv (double_split_apply env var func pad_len).
Proof.
  intros Hf. unfold double_split_apply.
  apply preserves_bind; [apply preserves_dbs_file_env|].
  intros [s|]; [|apply preserves_raise].
  apply preserves_for_each. intros spec. by apply preserves_apply2.
Qed.

Lemma preserves_dbs_indexed_scheme env fuel i :
  preserves dbs_inv (indexed_scheme env fuel i).
Proof.
  revert i. induction fuel as [|fuel IH]; intros i; simpl.
  - apply preserves_out_of_fuel.
  - apply preserves_bind; [apply preserves_dbs_file_env|].
    intros [probe|]; [|apply preserves_ret].
    apply preserves_bind; [apply preserves_dbs_file_env|intros user].
    apply preserves_bind; [apply preserves_dbs_file_env|intros pw].
    apply preserves_bind; [apply preserves_dbs_file_env|intros super].
    apply preserves_bind; [apply preserves_dbs_add_user|intros _].
    apply preserves_bind; [apply preserves_dbs_file_env|intros dbs].
    apply preserves_bind; [|intros _; apply IH].
    destruct dbs; [|apply preserves_raise].
    apply preserves_for_each. intros db. apply preserves_dbs_add_database.
Qed.

Lemma preserves_dbs_load_config_body env sh fuel :
  preserves dbs_inv (load_config_body env sh fuel).
Proof.
  unfold load_config_body.
  apply preserves_bind; [apply preserves_dbs_file_env|intros raw].
  apply preserves_bind.
  { destruct (raw ≫= sh); [apply preserves_ret|apply preserves_raise]. }
  intros args.
  apply preserves_bind.
  { apply preserves_dbs_double_split_apply, preserves_dbs_add_db_conf. }
  intros _.
  apply preserves_bind; [apply preserves_dbs_file_env|intros u].
  apply preserves_bind.
  { destruct u; [|apply preserves_ret].
    apply preserves_bind; [apply preserves_dbs_file_env|intros ?].
    apply preserves_bind; [apply preserves_dbs_file_env|intros ?].
    apply preserves_dbs_add_user. }
  intros _.
  apply preserves_bind; [apply preserves_dbs_file_env|intros d].
  apply preserves_bind.
  { destruct d; [|apply preserves_ret].
    apply preserves_bind; [apply preserves_dbs_file_env|intros ?].
    apply preserves_bind; [apply preserves_dbs_file_env|intros ?].
    apply preserves_dbs_add_database. }
  intros _.
  apply preserves_bind.
  { apply preserves_dbs_double_split_apply, preserves_dbs_add_user_from_multi. }
  intros _.
  apply preserves_bind.
  { apply preserves_dbs_double_split_apply, preserves_dbs_add_database. }
  intros _.
  apply preserves_bind; [apply preserves_dbs_indexed_scheme|intros _].
  apply preserves_bind; [apply preserves_get|intros st; apply preserves_ret].
Qed.

(** X6. A configuration that [load_config] returns lists no database
    name twice and no database named postgres: the second registration
    of a name is an [error_exit], and postgres is never listed. *)
Theorem databases_distinct_and_not_postgres env sh fuel cache cfg cache' :
  load_config env sh fuel cache = Ok (cfg, cache') →
  NoDup (db_name <$> databases cfg) ∧
  ∀ d, d ∈ databases cfg → db_name d ≠ Some "postgres".
Proof.
  unfold load_config.
  destruct (load_config_body env sh fuel (fresh cache))
    as [[cfg0 st]| | | |] eqn:Hbody; intros ?; simplify_eq.
  assert (dbs_inv st) as Hst.
  { eapply preserves_run; [apply preserves_dbs_load_config_body| |exact Hbody].
    constructor. }
  assert (databases cfg = databases_list st) as ->.
  { unfold load_config_body in Hbody.
    do 10 (apply R_bind_ok in Hbody as (? & ? & _ & Hbody)).
    apply R_bind_ok in Hbody as (st1 & st2 & Hget & Hret).
    unfold get in Hget. unfold ret in Hret. by simplify_eq. }
  split; [by eapply registered_dbs_NoDup|].
  intros d Hd. by destruct (registered_dbs_names _ _ _ Hst Hd).
Qed.

(** ** Fuel *)

(** X7. The loop over the indices always ends: from the empty cache
    some amount of fuel lets [load_config] come to a result, and every
    larger amount gives that same result. *)
Theorem load_config_total env sh :
  ∃ fuel0,
    load_config env sh fuel0 ∅ ≠ OutOfFuel ∧
    ∀ fuel, (fuel0 ≤ fuel)%nat →
      load_config env sh fuel ∅ = load_config env sh fuel0 ∅.
Proof.
  destruct (load_config_terminates env sh) as [fuel0 H].
  exists fuel0. split; [done|]. intros fuel Hle.
  by apply load_config_more_fuel.
Qed.

(** ** Commands run one after the other *)

Lemma run_events_infallible w tr full :
  Forall (λ e, fallible e = false) full → run_events w tr full = (None, full).
Proof.
  revert tr. induction full as [|e full IH]; intros tr Hf; simpl; [done|].
  apply Forall_cons in Hf as [-> Hf]. simpl. by rewrite IH.
Qed.

Lemma run_events_done w tr full :
  (run_events w tr full).1 = None → (run_events w tr full).2 = full.
Proof.
  revert tr. induction full as [|e full IH]; intros tr; simpl; [done|].
  destruct (fallible e && negb (succeeds w tr e)); simpl; [done|].
  intros H. by rewrite IH.
Qed.

Lemma run_events_app_done w tr f1 f2 :
  (run_events w tr f1).1 = None →
  run_events w tr (f1 ++ f2)
  = ((run_events w (tr ++ f1) f2).1, f1 ++ (run_events w (tr ++ f1) f2).2).
Proof.
  revert tr. induction f1 as [|e f1 IH]; intros tr; simpl.
  - intros _. rewrite app_nil_r. by destruct (run_events w tr f2).
  - destruct (fallible e && negb (succeeds w tr e)); simpl; [done|].
    intros H. rewrite IH by done. simpl. by rewrite <-app_assoc.
Qed.

Lemma run_events_app_failed w tr f1 f2 argv :
  (run_events w tr f1).1 = Some argv →
  run_events w tr (f1 ++ f2) = run_events w tr f1.
Proof.
  revert tr. induction f1 as [|e f1 IH]; intros tr; simpl; [done|].
  destruct (fallible e && negb (succeeds w tr e)); simpl; [done|].
  intros H. by rewrite IH.
Qed.

Lemma run_events_subseteq w tr full e :
  e ∈ (run_events w tr full).2 → e ∈ full.
Proof.
  revert tr. induction full as [|e' full IH]; intros tr; simpl; [done|].
  destruct (fallible e' && negb (succeeds w tr e')); simpl.
  - intros ->%list_elem_of_singleton. by left.
  - intros [->|H]%elem_of_cons; [by left|]. right. by eapply IH.
Qed.

Lemma run_events_failed w tr full argv :
  (run_events w tr full).1 = Some argv →
  ∃ e, e ∈ full ∧ fallible e = true ∧ argv_of e = argv.
Proof.
  revert tr. induction full as [|e full IH]; intros tr; simpl; [done|].
  destruct (fallible e && negb (succeeds w tr e)) eqn:He; simpl.
  - intros [= <-]. exists e. apply andb_prop in He as [-> _].
    split; [by left|done].
  - intros (e' & ? & ? & ?)%IH. exists e'. split; [by right|done].
Qed.

Section Performs.

Context (w : world).

Lemma performs_ret {A} (a : A) : performs w (mret a) [] a.
Proof. intros st. simpl. by rewrite extend_nil. Qed.

Lemma performs_pure {A} (m : M A) full a :
  Forall (λ e, fallible e = false) full →
  (∀ st, m st = (Ok a, extend st full)) → performs w m full a.
Proof. intros Hf Hm st. by rewrite run_events_infallible, Hm. Qed.

Lemma performs_emit e : fallible e = false → performs w (emit e) [e] tt.
Proof. intros He. apply performs_pure; [by constructor|done]. Qed.

Lemma performs_check_call argv :
  performs w (check_call w argv) [CheckCall argv] tt.
Proof.
  intros st. unfold check_call. simpl.
  by destruct (succeeds w (trace st) (CheckCall argv)).
Qed.

Lemma performs_check_call_pipe argv input :
  performs w (check_call_pipe w argv input) [CheckCallPipe argv input] tt.
Proof.
  intros st. unfold check_call_pipe. simpl.
  by destruct (succeeds w (trace st) (CheckCallPipe argv input)).
Qed.

Lemma performs_bind {A B} (m : M A) (k : A → M B) f1 f2 a b :
  performs w m f1 a → performs w (k a) f2 b →
  performs w (m ≫= k) (f1 ++ f2) b.
Proof.
  intros Hm Hk st. unfold mbind, M_bind, M_bind_def. rewrite Hm.
  destruct (run_events w (trace st) f1).1 as [argv|] eqn:E; simpl.
  - by rewrite (run_events_app_failed _ _ _ _ argv), E.
  - rewrite run_events_app_done, (run_events_done _ _ _ E) by done.
    rewrite Hk. simpl. by rewrite extend_extend.
Qed.

Lemma performs_for_each {A} (l : list A) (body : A → M unit)
    (ev : A → list event) :
  (∀ x, performs w (body x) (ev x) tt) →
  performs w (for_each_M l body) (l ≫= ev) tt.
Proof.
  intros Hbody. induction l as [|x l IH]; csimpl.
  - apply performs_ret.
  - by apply (performs_bind _ _ _ _ tt).
Qed.

End Performs.

(** ** [setup] as a sequence of commands *)

Lemma bind_singleton {A B} (f : A → B) (l : list A) :
  l ≫= (λ x, [f x]) = f <$> l.
Proof. induction l as [|x l IH]; csimpl; [done|]. by rewrite IH. Qed.

Section SetupRuns.

Context (w : world) (PGDATA : string) (os_environ : gmap string string)
  (shlex_split : string → option (list string)).

Lemma trust_loop_run (l : list PGUser) (b : bool) st :
  for_fold_M l (λ any_trust user_config,
    if decide (password user_config = Some "")
    then add_trust PGDATA (name user_config);; mret true
    else mret any_trust) b st
  = (Ok (b || bool_decide (name <$> filter (λ u, password u = Some "") l ≠ [])),
     extend st (Write (pg_hba PGDATA) ∘ trust_line <$>
                  (name <$> filter (λ u, password u = Some "") l))).
Proof.
  revert b st. induction l as [|u l IH]; intros b st; simpl.
  - by rewrite extend_nil, orb_false_r.
  - rewrite filter_cons. unfold mbind, M_bind, M_bind_def in *.
    destruct (decide (password u = Some "")) as [Hu|Hu]; simpl.
    + rewrite IH. simpl. rewrite orb_true_r. f_equal.
      unfold extend; simpl. by rewrite <-app_assoc.
    + by rewrite IH.
Qed.

(** The part of [setup] that follows [load_config]. *)
Lemma setup_tail_performs (config : PGConfig) :
  performs w
    (check_call w (["initdb"; "--username=postgres"] ++ init_args config);;
     any_trust ←
       (if decide (postgres_password config = Some "")
        then add_trust PGDATA (Some "postgres");; mret true
        else mret false);
     any_trust ←
       for_fold_M (users config) (λ any_trust user_config,
         if decide (password user_config = Some "")
         then add_trust PGDATA (name user_config);; mret true
         else mret any_trust) any_trust;
     emit (Write (pg_hba PGDATA) md5_line);;
     (if any_trust : bool then print_trust_warning else mret tt);;
     check_call w ["pg_ctl"; "-D"; PGDATA; "-o";
                   "-c listen_addresses='localhost'"; "-w"; "start"];;
     (if Py.truthy_opt (postgres_password config)
      then psql w (alter_postgres_sql (postgres_password config))
      else mret tt);;
     for_each_M (users config) (λ user_config,
       psql w (create_user_sql user_config));;
     psql_db w (Some "postgres") revoke_sql;;
     for_each_M (databases config) (λ db_config,
       psql w (create_database_sql db_config);;
       psql_db w (db_name db_config) revoke_sql;;
       if Py.truthy_opt (owner db_config)
       then psql_db w (db_name db_config) (grant_sql db_config)
       else mret tt);;
     for_each_M (db_config config) (λ setting,
       psql w (alter_system_sql setting));;
     check_call w ["pg_ctl"; "-D"; PGDATA; "-m"; "fast"; "-w"; "stop"];;
     emit (Print (nl +:+ "PostgreSQL init process complete; ready for start up."
                  +:+ nl)))
    (drop 3 (first_run_events PGDATA config)) tt.
Proof.
  set (b0 := bool_decide (postgres_password config = Some "")).
  set (names := name <$> filter (λ u, password u = Some "") (users config)).
  replace (drop 3 (first_run_events PGDATA config)) with
    ([CheckCall (["initdb"; "--username=postgres"] ++ init_args config)]
     ++ ((if b0 then [Write (pg_hba PGDATA) (trust_line (Some "postgres"))]
          else [])
     ++ ((Write (pg_hba PGDATA) ∘ trust_line <$> names)
     ++ ([Write (pg_hba PGDATA) md5_line]
     ++ ((if b0 || bool_decide (names ≠ []) then [PrintErr WARNING] else [])
     ++ ([pg_ctl_start PGDATA]
     ++ ((if Py.truthy_opt (postgres_password config)
          then [psql_event (alter_postgres_sql (postgres_password config))]
          else [])
     ++ ((users config ≫= λ u, [psql_event (create_user_sql u)])
     ++ ([psql_db_event (Some "postgres") revoke_sql]
     ++ ((databases config ≫= database_events)
     ++ ((db_config config ≫= λ c, [psql_event (alter_system_sql c)])
     ++ ([pg_ctl_stop PGDATA]
     ++ [Print (nl +:+ "PostgreSQL init process complete; ready for start up."
                +:+ nl)])))))))))))).
  2:{ unfold first_run_events, trusted, b0, names. simpl.
      rewrite !bind_singleton.
      destruct (decide (postgres_password config = Some "")) as [Hpw|Hpw].
      - rewrite (bool_decide_eq_true_2 _ Hpw). reflexivity.
      - rewrite (bool_decide_eq_false_2 _ Hpw). reflexivity. }
  apply (performs_bind _ _ _ _ _ tt); [apply performs_check_call|].
  apply (performs_bind _ _ _ _ _ b0).
  { unfold b0. destruct (decide (postgres_password config = Some "")) as [Hpw|Hpw].
    - rewrite (bool_decide_eq_true_2 _ Hpw).
      apply performs_pure; [by constructor|done].
    - rewrite (bool_decide_eq_false_2 _ Hpw). apply performs_ret. }
  apply (performs_bind _ _ _ _ _ (b0 || bool_decide (names ≠ []))).
  { apply performs_pure; [|intros st; apply trust_loop_run].
    apply Forall_fmap, Forall_true. done. }
  apply (performs_bind _ _ _ _ _ tt); [by apply performs_emit|].
  apply (performs_bind _ _ _ _ _ tt).
  { destruct (b0 || _); [by apply performs_emit|apply performs_ret]. }
  apply (performs_bind _ _ _ _ _ tt); [apply performs_check_call|].
  apply (performs_bind _ _ _ _ _ tt).
  { destruct (Py.truthy_opt _);
      [apply performs_check_call_pipe|apply performs_ret]. }
  apply (performs_bind _ _ _ _ _ tt).
  { apply performs_for_each. intros u. apply performs_check_call_pipe. }
  apply (performs_bind _ _ _ _ _ tt); [apply performs_check_call_pipe|].
  apply (performs_bind _ _ _ _ _ tt).
  { apply performs_for_each. intros db. unfold database_events.
    apply (performs_bind _ _ _ [_] _ tt); [apply performs_check_call_pipe|].
    apply (performs_bind _ _ _ [_] _ tt); [apply performs_check_call_pipe|].
    destruct (Py.truthy_opt _);
      [apply performs_check_call_pipe|apply performs_ret]. }
  apply (performs_bind _ _ _ _ _ tt).
  { apply performs_for_each. intros c. apply performs_check_call_pipe. }
  apply (performs_bind _ _ _ _ _ tt); [apply performs_check_call|].
  by apply performs_emit.
Qed.

End SetupRuns.

Lemma M_bind_run {A B} (m : M A) (k : A → M B) st :
  (m ≫= k) st
  = match m st with
    | (Ok a, st') => k a st'
    | (Exit msg, st') => (Exit msg, st')
    | (Raise e, st') => (Raise e, st')
    | (Replaced, st') => (Replaced, st')
    | (OutOfFuel, st') => (OutOfFuel, st')
    end.
Proof. reflexivity. Qed.

Section SetupFailFast.

Context (w : world) (PGDATA : string) (os_environ : gmap string string)
  (shlex_split : string → option (list string)).

Lemma setup_runs fuel st cfg cache' :
  isfile w (path_join PGDATA "PG_VERSION") = false →
  load_config (mkEnvironment os_environ (file_contents w))
    shlex_split fuel (env_cache st) = Ok (cfg, cache') →
  ∃ cache,
    setup w PGDATA os_environ shlex_split fuel st
    = (outcome_of tt (run_events w (trace st) (first_run_events PGDATA cfg)).1,
       mkPState (sys_argv st) cache
         (trace st ++ (run_events w (trace st) (first_run_events PGDATA cfg)).2)).
Proof.
  intros Hm Hcfg. unfold setup. rewrite Hm.
  change (first_run_events PGDATA cfg) with
    (CheckCall ["mkdir"; "-p"; PGDATA]
     :: Call ["chown"; "-R"; PGUID; PGDATA]
     :: Call ["chmod"; "700"; PGDATA]
     :: drop 3 (first_run_events PGDATA cfg)).
  rewrite M_bind_run. unfold check_call at 1.
  cbn [run_events fallible negb andb].
  destruct (succeeds w (trace st) (CheckCall ["mkdir"; "-p"; PGDATA])); simpl.
  2:{ by eexists. }
  rewrite M_bind_run. unfold call at 1, emit at 1.
  rewrite M_bind_run. unfold call at 1, emit at 1.
  rewrite M_bind_run. unfold call_load_config at 1. cbn [env_cache].
  rewrite Hcfg. cbv beta.
  rewrite setup_tail_performs. simpl. rewrite <-!app_assoc. simpl.
  exists cache'. unfold extend. simpl. by rewrite <-!app_assoc.
Qed.


Lemma setup_config_error_run fuel st :
  isfile w (path_join PGDATA "PG_VERSION") = false →
  succeeds w (trace st) (CheckCall ["mkdir"; "-p"; PGDATA]) = true →
  is_ok (load_config (mkEnvironment os_environ (file_contents w))
           shlex_split fuel (env_cache st)) = false →
  setup w PGDATA os_environ shlex_split fuel st
  = (match load_config (mkEnvironment os_environ (file_contents w))
             shlex_split fuel (env_cache st) with
     | Ok _ => Ok tt
     | Exit msg => Exit msg
     | Raise e => Raise e
     | Replaced => Replaced
     | OutOfFuel => OutOfFuel
     end,
     extend st [CheckCall ["mkdir"; "-p"; PGDATA];
                Call ["chown"; "-R"; PGUID; PGDATA];
                Call ["chmod"; "700"; PGDATA]]).
Proof.
  intros Hm Hmk Hcfg. unfold setup. rewrite Hm.
  rewrite M_bind_run. unfold check_call at 1. rewrite Hmk.
  rewrite M_bind_run. unfold call at 1, emit at 1.
  rewrite M_bind_run. unfold call at 1, emit at 1.
  rewrite M_bind_run. unfold call_load_config at 1. cbn [env_cache].
  destruct (load_config _ _ _ _) as [[cfg c]| | | |]; [done|..];
    unfold extend; simpl; by rewrite <-!app_assoc.
Qed.

(** X9. When the configuration does not resolve, a first run of
    [setup] ends with that failure after [mkdir], [chown] and [chmod] on
    the data directory: it has not started initdb or anything after it. *)
Theorem setup_config_error fuel st :
  isfile w (path_join PGDATA "PG_VERSION") = false →
  succeeds w (trace st) (CheckCall ["mkdir"; "-p"; PGDATA]) = true →
  is_ok (load_config (mkEnvironment os_environ (file_contents w))
           shlex_split fuel (env_cache st)) = false →
  (setup w PGDATA os_environ shlex_split fuel st).2
  = extend st [CheckCall ["mkdir"; "-p"; PGDATA];
               Call ["chown"; "-R"; PGUID; PGDATA];
               Call ["chmod"; "700"; PGDATA]] ∧
  is_ok (setup w PGDATA os_environ shlex_split fuel st).1 = false ∧
  ∀ msg,
    load_config (mkEnvironment os_environ (file_contents w))
      shlex_split fuel (env_cache st) = Exit msg →
    (setup w PGDATA os_environ shlex_split fuel st).1 = Exit msg.
Proof.
  intros Hm Hmk Hcfg. rewrite (setup_config_error_run fuel st Hm Hmk Hcfg).
  split; [done|]. split.
  - by destruct (load_config _ _ _ _).
  - by intros msg ->.
Qed.

Lemma before_start_events cfg e :
  e ∈ [CheckCall ["mkdir"; "-p"; PGDATA];
        Call ["chown"; "-R"; PGUID; PGDATA];
        Call ["chmod"; "700"; PGDATA];
        CheckCall (["initdb"; "--username=postgres"] ++ init_args cfg)]
       ++ (Write (pg_hba PGDATA) ∘ trust_line <$> trusted cfg)
       ++ [Write (pg_hba PGDATA) md5_line]
       ++ (if bool_decide (trusted cfg ≠ []) then [PrintErr WARNING] else []) →
  e ≠ pg_ctl_stop PGDATA ∧ ∀ args, argv_of e ≠ "psql" :: args.
Proof.
  rewrite !elem_of_app, list_elem_of_fmap.
  intros [H|[(n & -> & _)|[H|H]]].
  - list_cases H; by split.
  - by split.
  - list_cases H; by split.
  - destruct (bool_decide _); list_cases H; by split.
Qed.

Lemma sql_events cfg e :
  e ∈ (if Py.truthy_opt (postgres_password cfg)
        then [psql_event (alter_postgres_sql (postgres_password cfg))] else [])
       ++ (psql_event ∘ create_user_sql <$> users cfg)
       ++ [psql_db_event (Some "postgres") revoke_sql]
       ++ (databases cfg ≫= database_events)
       ++ (psql_event ∘ alter_system_sql <$> db_config cfg) →
  ∃ argv input, e = CheckCallPipe argv input.
Proof.
  rewrite !elem_of_app, !list_elem_of_fmap, list_elem_of_bind.
  intros [H|[(u & -> & _)|[H|[(db & H & _)|(c & -> & _)]]]]; eauto.
  - destruct (Py.truthy_opt _); list_cases H; eauto.
  - list_cases H; eauto.
  - unfold database_events in H. apply elem_of_app in H as [H|H].
    + list_cases H; eauto.
    + destruct (Py.truthy_opt _); list_cases H; eauto.
Qed.

(** X10. When a first run of [setup] dies on a failing psql call, the
    temporary server had been started and is not stopped: [pg_ctl stop]
    is not among the events of the run. *)
Theorem failed_sql_leaves_server_running fuel st cfg cache' args :
  isfile w (path_join PGDATA "PG_VERSION") = false →
  load_config (mkEnvironment os_environ (file_contents w))
    shlex_split fuel (env_cache st) = Ok (cfg, cache') →
  (setup w PGDATA os_environ shlex_split fuel st).1
  = Raise (CalledProcessError ("psql" :: args)) →
  ∃ evs,
    trace (setup w PGDATA os_environ shlex_split fuel st).2 = trace st ++ evs ∧
    pg_ctl_start PGDATA ∈ evs ∧ pg_ctl_stop PGDATA ∉ evs.
Proof.
  intros Hm Hcfg. destruct (setup_runs fuel st cfg cache' Hm Hcfg) as [c ->].
  cbn [fst snd trace]. intros Hfail.
  exists (run_events w (trace st) (first_run_events PGDATA cfg)).2.
  split; [done|].
  revert Hfail. generalize (trace st). intros tr.
  set (A := [CheckCall ["mkdir"; "-p"; PGDATA];
             Call ["chown"; "-R"; PGUID; PGDATA];
             Call ["chmod"; "700"; PGDATA];
             CheckCall (["initdb"; "--username=postgres"] ++ init_args cfg)]
            ++ (Write (pg_hba PGDATA) ∘ trust_line <$> trusted cfg)
            ++ [Write (pg_hba PGDATA) md5_line]
            ++ (if bool_decide (trusted cfg ≠ []) then [PrintErr WARNING]
                else [])).
  set (S := (if Py.truthy_opt (postgres_password cfg)
             then [psql_event (alter_postgres_sql (postgres_password cfg))]
             else [])
            ++ (psql_event ∘ create_user_sql <$> users cfg)
            ++ [psql_db_event (Some "postgres") revoke_sql]
            ++ (databases cfg ≫= database_events)
            ++ (psql_event ∘ alter_system_sql <$> db_config cfg)).
  set (Z := [CheckCall ["pg_ctl"; "-D"; PGDATA; "-m"; "fast"; "-w"; "stop"];
             Print (nl +:+ "PostgreSQL init process complete; ready for start up."
                    +:+ nl)]).
  assert (first_run_events PGDATA cfg
          = A ++ ([pg_ctl_start PGDATA] ++ (S ++ Z))) as ->.
  { unfold first_run_events, A, S, Z. by rewrite <-!app_assoc. }
  assert (∀ e, e ∈ A → e ≠ pg_ctl_stop PGDATA ∧ ∀ args, argv_of e ≠ "psql" :: args)
    as HA by apply before_start_events.
  assert (∀ e, e ∈ S → ∃ argv input, e = CheckCallPipe argv input)
    as HS by apply sql_events.
  clearbody A S.
  destruct (run_events w tr A).1 as [a|] eqn:EA.
  { rewrite (run_events_app_failed w tr A _ a EA), EA.
    intros Hf. unfold outcome_of in Hf. simplify_eq.
    apply run_events_failed in EA as (e & He & _ & Hargv).
    destruct (HA e He) as [_ Hne]. by destruct (Hne args). }
  rewrite (run_events_app_done w tr A _ EA). cbn [fst snd].
  destruct (run_events w (tr ++ A) [pg_ctl_start PGDATA]).1 as [a|] eqn:E1.
  { rewrite (run_events_app_failed w _ _ _ a E1), E1.
    intros Hf. unfold outcome_of in Hf. simplify_eq.
    apply run_events_failed in E1 as (e & He & _ & Hargv).
    apply list_elem_of_singleton in He as ->. done. }
  rewrite (run_events_app_done w _ _ _ E1). cbn [fst snd].
  destruct (run_events w ((tr ++ A) ++ [pg_ctl_start PGDATA]) S).1
    as [a|] eqn:E2.
  - rewrite (run_events_app_failed w _ _ _ a E2). intros _. split.
    + apply elem_of_app. right. apply elem_of_app. left. by left.
    + rewrite !elem_of_app.
      intros [H|[H%list_elem_of_singleton|H%run_events_subseteq]].
      * by destruct (HA _ H) as [[] _].
      * done.
      * by destruct (HS _ H) as (? & ? & ?).
  - rewrite (run_events_app_done w _ _ _ E2).
    unfold Z. simpl.
    destruct (succeeds w _ _); simpl; [done|].
    intros Hf. simplify_eq.
Qed.

End SetupFailFast.

(** ** [main] *)

Lemma bind_not_ok {A B} (m : M A) (k : A → M B) :
  (∀ a st, is_ok (k a st).1 = false) →
  ∀ st, is_ok ((m ≫= k) st).1 = false.
Proof.
  intros Hk st. rewrite M_bind_run.
  destruct (m st) as [[a| | | |] st']; [apply Hk|done..].
Qed.

Section Main.

Context (w : world) (UID : nat) (PGDATA : string)
  (os_environ : gmap string string)
  (shlex_split : string → option (list string)).

Lemma start_not_ok st : is_ok (start w st).1 = false.
Proof.
  unfold start, execlp. destruct (sys_argv st) as [|? [|file rest]]; try done.
  by destruct (succeeds w _ _).
Qed.

(** X11. [main] never comes back: whatever the arguments and the
    surroundings, it ends in an exec that replaced the process, in an
    [error_exit] or in an uncaught exception. *)
Theorem main_never_returns fuel st :
  is_ok (main w UID PGDATA os_environ shlex_split fuel st).1 = false.
Proof.
  unfold main. revert st.
  do 8 (apply bind_not_ok; intros ? ?).
  apply start_not_ok.
Qed.

(** X12. A command other than postgres, of two characters or more and
    whose second character is not a dash, is exec'ed with its arguments
    and nothing else is done: no configuration is read and no other
    program is run. *)
Theorem main_passthrough fuel a0 cmd rest cache tr c :
  Py.index cmd 1 = Some c → c ≠ "-"%char → cmd ≠ "postgres" →
  main w UID PGDATA os_environ shlex_split fuel
    (mkPState (a0 :: cmd :: rest) cache tr)
  = execlp w cmd (cmd :: rest) (mkPState (a0 :: cmd :: rest) cache tr).
Proof.
  intros Hc Hdash Hcmd.
  assert (Ascii.eqb c "-" = false) as Hneq by by apply Ascii.eqb_neq.
  unfold main, mbind, M_bind, M_bind_def, M_ret, mret, M_ret_def, stop.
  cbn [fst snd sys_argv lookup list_lookup option_bind length].
  rewrite decide_False by lia.
  unfold mbind. cbn [option_bind]. rewrite Hc, Hneq.
  cbn [fst snd sys_argv lookup list_lookup].
  rewrite decide_False by (by intros [? _]).
  rewrite decide_False by done.
  reflexivity.
Qed.

(** X13. A first argument whose second character is a dash is taken for
    server options: [main] goes on exactly as if [postgres] had been
    given in front of the arguments. *)
Theorem main_options_mean_postgres fuel a0 opt rest cache tr :
  Py.index opt 1 = Some "-"%char →
  main w UID PGDATA os_environ shlex_split fuel
    (mkPState (a0 :: opt :: rest) cache tr)
  = main w UID PGDATA os_environ shlex_split fuel
      (mkPState (a0 :: "postgres" :: opt :: rest) cache tr).
Proof.
  intros Hopt. unfold main.
  rewrite !(M_bind_run (λ st, (Ok st, st))). cbn [fst snd sys_argv].
  rewrite !(M_bind_run (if decide _ then _ else _)).
  rewrite !decide_False by (simpl; lia).
  cbn [lookup list_lookup mbind option_bind]. rewrite Hopt.
  reflexivity.
Qed.

(** X14. Run as root with the command postgres, [main] prepares the
    two directories and hands over to gosu with the arguments it was
    given; it stops at the first of the six commands that fails. In no
    case does this process run [setup]. *)
Theorem main_as_root fuel a0 rest cache tr :
  main w 0 PGDATA os_environ shlex_split fuel
    (mkPState (a0 :: "postgres" :: rest) cache tr)
  = match (run_events w tr (root_events PGDATA)).1 with
    | Some argv =>
        (Raise (CalledProcessError argv),
         mkPState (a0 :: "postgres" :: rest) cache
           (tr ++ (run_events w tr (root_events PGDATA)).2))
    | None =>
        execlp w "gosu" (["gosu"; "postgres"; a0; "postgres"] ++ rest)
          (mkPState (a0 :: "postgres" :: rest) cache
             (tr ++ root_events PGDATA))
    end.
Proof.
  unfold main, mbind, M_bind, M_bind_def, M_ret, mret, M_ret_def, stop.
  cbn [fst snd sys_argv lookup list_lookup option_bind length].
  rewrite decide_False by lia.
  unfold mbind.
  cbn [option_bind Py.index String.get fst snd sys_argv lookup list_lookup].
  change (Ascii.eqb "o" "-") with false. cbn [fst snd sys_argv lookup list_lookup].
  rewrite decide_True by done.
  unfold init_with_root, root_events, mbind, M_bind, M_bind_def.
  cbn [run_events fallible negb andb argv_of].
  do 6 (unfold check_call at 1; cbn [trace sys_argv env_cache];
        destruct (succeeds w _ _); cbn [negb fst snd];
        [|by rewrite <-?app_assoc]).
  unfold execlp. cbn [trace sys_argv env_cache app]. rewrite <-!app_assoc.
  by destruct (succeeds w _ _).
Qed.

End Main.

(** ** The variables [load_config] reads *)

(** X15. [load_config] reads no variable but those whose name begins
    with POSTGRES_: two environments that agree on these (and on the
    files) resolve to the same result, with any fuel that is enough. So
    the [PGUSER] that the module sets has no part in the resolution. *)
Theorem load_config_reads_postgres_keys env1 env2 sh :
  files env1 = files env2 →
  (∀ k, String.prefix "POSTGRES_" k = true →
        environ env1 !! k = environ env2 !! k) →
  ∃ fuel0, ∀ fuel, (fuel0 ≤ fuel)%nat →
    load_config env1 sh fuel ∅ = load_config env2 sh fuel ∅ ∧
    load_config env1 sh fuel ∅ ≠ OutOfFuel.
Proof.
  intros Hfiles Hagree.
  destruct (free_index (dom (environ env1)) (indexed_var "POSTGRES_USER")
              (λ j, indexed_var "POSTGRES_USER" j +:+ "_FILE")) as (j & Hj1 & Hj2).
  apply not_elem_of_dom in Hj1, Hj2.
  assert (∀ suf, suf ∈ suffixes →
            environ env1 !! (indexed_var "POSTGRES_USER" j +:+ suf) = None)
    as Hunset1.
  { intros suf Hsuf. unfold suffixes in Hsuf. list_cases Hsuf; [|done].
    by rewrite append_empty_r. }
  assert (∀ suf, suf ∈ suffixes →
            environ env2 !! (indexed_var "POSTGRES_USER" j +:+ suf) = None)
    as Hunset2.
  { intros suf Hsuf. rewrite <-Hagree; [by apply Hunset1|].
    apply prefix_app, indexed_prefix. unfold indexed_bases.
    apply elem_of_cons. by left. }
  exists (S j). intros fuel Hfuel.
  apply (load_config_in_step env1 env2 j Hfiles (λ k Hk _, Hagree k Hk)
           Hunset1 Hunset2 sh fuel). lia.
Qed.

(** ** The SQL of a first run *)

Section FirstRunSql.

Context (w : world) (PGDATA : string) (os_environ : gmap string string)
  (shlex_split : string → option (list string)).

(** X16. The SQL that a first run of [setup] that reaches its end pipes
    to psql, in this order: the ALTER of postgres if its password is not
    empty, one CREATE USER for each user, the REVOKE on the database
    postgres, then for each database its CREATE DATABASE, its REVOKE
    and, when it has an owner, the GRANT to the owner, then one ALTER
    SYSTEM for each setting. So every user is created before any
    database, and nothing else is sent to psql. *)
Theorem first_run_sql_script fuel st st' :
  isfile w (path_join PGDATA "PG_VERSION") = false →
  setup w PGDATA os_environ shlex_split fuel st = (Ok tt, st') →
  ∃ cfg cache' evs,
    load_config (mkEnvironment os_environ (file_contents w))
      shlex_split fuel (env_cache st) = Ok (cfg, cache') ∧
    trace st' = trace st ++ evs ∧
    sql_of evs
    = (if Py.truthy_opt (postgres_password cfg)
       then [alter_postgres_sql (postgres_password cfg)] else [])
      ++ (create_user_sql <$> users cfg)
      ++ [revoke_sql]
      ++ (databases cfg ≫= λ db,
            [create_database_sql db; revoke_sql]
            ++ if Py.truthy_opt (owner db) then [grant_sql db] else [])
      ++ (alter_system_sql <$> db_config cfg).
Proof.
  intros Hmarker Hrun.
  destruct (setup_first_run w PGDATA os_environ shlex_split fuel st st'
              Hmarker Hrun) as (cfg & cache' & Hcfg & Htr).
  exists cfg, cache', (first_run_events PGDATA cfg).
  split; [done|]. split; [done|]. apply sql_first_run.
Qed.

End FirstRunSql.

(** ** Instances of the further properties *)

Lemma file_env_memoized_witness :
  file_env (env_of [("A", "  x ")]) "A" None (fresh ∅)
    = Ok (Some "x", st_read_A) ∧
  file_env (env_of []) "A" (Some "other") st_read_A = Ok (Some "x", st_read_A).
Proof.
  assert (file_env (env_of [("A", "  x ")]) "A" None (fresh ∅)
          = Ok (Some "x", st_read_A)) as H.
  { vm_compute. reflexivity. }
  split; [exact H|].
  exact (file_env_memoized _ (env_of []) "A" None (Some "other") _ _ _ H).
Defined.

Lemma file_env_both_set_witness :
  file_env (env_of [("A", "1"); ("A_FILE", "/run/a")]) "A" None (fresh ∅)
  = Exit "A and A_FILE were set, only one allowed".
Proof.
  apply (file_env_both_set (env_of [("A", "1"); ("A_FILE", "/run/a")]) "A"
           None (fresh ∅)).
  - vm_compute. reflexivity.
  - vm_compute. eexists. reflexivity.
  - vm_compute. eexists. reflexivity.
Defined.


Lemma databases_distinct_and_not_postgres_witness :
  let l := [("POSTGRES_DATABASES", "d1:alice|d2")] in
  let dbs := [mkPGDatabase (Some "d1") (Some "alice");
              mkPGDatabase (Some "d2") None] in
  load_config (env_of l) shlex_words 10 ∅
    = Ok (mkPGConfig [] [] None [] dbs, cache_of l) ∧
  NoDup (db_name <$> dbs) ∧
  ∀ d, d ∈ dbs → db_name d ≠ Some "postgres".
Proof.
  intros l dbs.
  assert (load_config (env_of l) shlex_words 10 ∅
          = Ok (mkPGConfig [] [] None [] dbs, cache_of l)) as H.
  { vm_compute. reflexivity. }
  split; [exact H|].
  exact (databases_distinct_and_not_postgres _ _ _ _ _ _ H).
Defined.


Lemma setup_config_error_witness :
  let l := [("POSTGRES_USERS", "postgres:pw")] in
  let w := world_of l false 70 in
  let r := setup w "/data" (environ_of l) shlex_words 10 st_postgres in
  isfile w (path_join "/data" "PG_VERSION") = false ∧
  succeeds w (trace st_postgres) (CheckCall ["mkdir"; "-p"; "/data"]) = true ∧
  is_ok (load_config (mkEnvironment (environ_of l) (file_contents w))
           shlex_words 10 (env_cache st_postgres)) = false ∧
  r.2 = extend st_postgres [CheckCall ["mkdir"; "-p"; "/data"];
                            Call ["chown"; "-R"; PGUID; "/data"];
                            Call ["chmod"; "700"; "/data"]] ∧
  is_ok r.1 = false ∧
  ∀ msg,
    load_config (mkEnvironment (environ_of l) (file_contents w))
      shlex_words 10 (env_cache st_postgres) = Exit msg →
    r.1 = Exit msg.
Proof.
  intros l w r.
  assert (isfile w (path_join "/data" "PG_VERSION") = false) as Hm.
  { vm_compute. reflexivity. }
  assert (succeeds w (trace st_postgres) (CheckCall ["mkdir"; "-p"; "/data"])
          = true) as Hmk.
  { vm_compute. reflexivity. }
  assert (is_ok (load_config (mkEnvironment (environ_of l) (file_contents w))
                   shlex_words 10 (env_cache st_postgres)) = false) as Hcfg.
  { vm_compute. reflexivity. }
  split; [exact Hm|]. split; [exact Hmk|]. split; [exact Hcfg|].
  exact (setup_config_error w "/data" (environ_of l) shlex_words 10
           st_postgres Hm Hmk Hcfg).
Defined.

Lemma failed_sql_leaves_server_running_witness :
  let w := world_sql_fails full_example in
  let r := setup w "/data" (environ_of full_example) shlex_words 10
             st_postgres in
  isfile w (path_join "/data" "PG_VERSION") = false ∧
  load_config (mkEnvironment (environ_of full_example) (file_contents w))
    shlex_words 10 (env_cache st_postgres)
    = Ok (config_in full_example, cache_in full_example) ∧
  r.1 = Raise (CalledProcessError
                 ["psql"; "-v"; "ON_ERROR_STOP=1"; "--username"; "postgres"]) ∧
  ∃ evs, trace r.2 = trace st_postgres ++ evs ∧
         pg_ctl_start "/data" ∈ evs ∧ pg_ctl_stop "/data" ∉ evs.
Proof.
  intros w r.
  assert (isfile w (path_join "/data" "PG_VERSION") = false) as Hm.
  { vm_compute. reflexivity. }
  assert (load_config (mkEnvironment (environ_of full_example) (file_contents w))
            shlex_words 10 (env_cache st_postgres)
          = Ok (config_in full_example, cache_in full_example)) as Hcfg.
  { vm_compute. reflexivity. }
  assert (r.1 = Raise (CalledProcessError
                 ["psql"; "-v"; "ON_ERROR_STOP=1"; "--username"; "postgres"]))
    as Hfail.
  { vm_compute. reflexivity. }
  split; [exact Hm|]. split; [exact Hcfg|]. split; [exact Hfail|].
  exact (failed_sql_leaves_server_running w "/data" (environ_of full_example)
           shlex_words 10 st_postgres _ _ _ Hm Hcfg Hfail).
Defined.

Lemma main_passthrough_witness :
  let w := world_of [] false 70 in
  let st := mkPState ["docker-entrypoint.py"; "ls"; "-l"] ∅ [] in
  Py.index "ls" 1 = Some "s"%char ∧ "s"%char ≠ "-"%char ∧ "ls" ≠ "postgres" ∧
  main w 70 "/data" (environ_of []) shlex_words 10 st
  = execlp w "ls" ["ls"; "-l"] st.
Proof.
  intros w st.
  assert (Py.index "ls" 1 = Some "s"%char) as Hc by reflexivity.
  assert ("s"%char ≠ "-"%char) as Hd by discriminate.
  assert ("ls" ≠ "postgres") as Hn by discriminate.
  split; [exact Hc|]. split; [exact Hd|]. split; [exact Hn|].
  exact (main_passthrough w 70 "/data" (environ_of []) shlex_words 10
           "docker-entrypoint.py" "ls" ["-l"] ∅ [] "s"%char Hc Hd Hn).
Defined.

Lemma main_options_mean_postgres_witness :
  let w := world_of [] true 70 in
  Py.index "--version" 1 = Some "-"%char ∧
  main w 70 "/data" (environ_of []) shlex_words 10
    (mkPState ["docker-entrypoint.py"; "--version"] ∅ [])
  = main w 70 "/data" (environ_of []) shlex_words 10
      (mkPState ["docker-entrypoint.py"; "postgres"; "--version"] ∅ []).
Proof.
  intros w.
  assert (Py.index "--version" 1 = Some "-"%char) as Hc by reflexivity.
  split; [exact Hc|].
  exact (main_options_mean_postgres w 70 "/data" (environ_of []) shlex_words
           10 "docker-entrypoint.py" "--version" [] ∅ [] Hc).
Defined.

Lemma load_config_reads_postgres_keys_witness :
  let env2 := env_of [("POSTGRES_USERS", "alice:secret")] in
  let env1 := mkEnvironment (<["PGUSER" := "postgres"]> (environ env2)) ∅ in
  ∃ fuel0, ∀ fuel, (fuel0 ≤ fuel)%nat →
    load_config env1 shlex_words fuel ∅ = load_config env2 shlex_words fuel ∅ ∧
    load_config env1 shlex_words fuel ∅ ≠ OutOfFuel.
Proof.
  intros env2 env1.
  apply (load_config_reads_postgres_keys env1 env2 shlex_words).
  - reflexivity.
  - intros k Hk. destruct (decide (k = "PGUSER")) as [->|Hne].
    + vm_compute in Hk. discriminate Hk.
    + unfold env1. simpl. by rewrite lookup_insert_ne.
Defined.

Lemma first_run_sql_script_witness :
  let w := world_of full_example false 70 in
  let st' := (setup_of full_example false).2 in
  isfile w (path_join "/data" "PG_VERSION") = false ∧
  setup w "/data" (environ_of full_example) shlex_words 10 st_postgres
    = (Ok tt, st') ∧
  ∃ cfg cache' evs,
    load_config (mkEnvironment (environ_of full_example) (file_contents w))
      shlex_words 10 (env_cache st_postgres) = Ok (cfg, cache') ∧
    trace st' = trace st_postgres ++ evs ∧
    sql_of evs
    = (if Py.truthy_opt (postgres_password cfg)
       then [alter_postgres_sql (postgres_password cfg)] else [])
      ++ (create_user_sql <$> users cfg)
      ++ [revoke_sql]
      ++ (databases cfg ≫= λ db,
            [create_database_sql db; revoke_sql]
            ++ if Py.truthy_opt (owner db) then [grant_sql db] else [])
      ++ (alter_system_sql <$> db_config cfg).
Proof.
  intros w st'.
  assert (isfile w (path_join "/data" "PG_VERSION") = false) as Hm.
  { vm_compute. reflexivity. }
  assert (setup w "/data" (environ_of full_example) shlex_words 10 st_postgres
          = (Ok tt, st')) as Hrun.
  { vm_compute. reflexivity. }
  split; [exact Hm|]. split; [exact Hrun|].
  exact (first_run_sql_script w "/data" (environ_of full_example)
           shlex_words 10 st_postgres st' Hm Hrun).
Defined.
